(** * Reconciliation and catalog engine of the chat importer (src/main.ts)

    A shallow embedding of the note renderer, the marker scanner, the
    metadata rewriter, the per-conversation reconciliation procedure and the
    batch driver of [NexusAiChatImporterPlugin], with the properties of the
    specification stated and proved (or refuted) over it.

    Conventions of the embedding.
    - A JavaScript string is a [string]: a sequence of 8-bit code units.  On
      these, the regular-expression atom [.] excludes exactly LF and CR, and
      [^]/[$] under the [m] flag look at exactly these two terminators.
    - JavaScript numbers that hold timestamps are integers of seconds ([Z]).
    - [null]/[undefined] fields are [option]s.
    - An object used as a dictionary is a [gmap]; [chat.mapping], whose
      enumeration order matters, is an association list in that order.
    - Methods that touch the plugin's fields or the vault run in the monad
      [M]: a state transformer that either returns or throws. *)

From Stdlib Require Import ZArith Ascii String List Bool Lia DecimalString.
From stdpp Require Import base gmap strings list.

Local Open Scope Z_scope.

(* ================================================================= *)
(** ** Strings and the three regular expressions of the source *)

Module Js.

Definition LF : ascii := "010"%char.
Definition CR : ascii := "013"%char.
Definition DOLLAR : ascii := "036"%char.

(** Code units that [.] refuses and that delimit lines for [^] and [$]. *)
Definition isLineTerminator (c : ascii) : bool :=
  Ascii.eqb c LF || Ascii.eqb c CR.

(** [s.startsWith(p)], returning what follows [p]. *)
Fixpoint strip_prefix (p s : string) : option string :=
  match p with
  | EmptyString => Some s
  | String a p' =>
      match s with
      | EmptyString => None
      | String b s' => if Ascii.eqb a b then strip_prefix p' s' else None
      end
  end.

(** Greedy [.*]: the longest run of code units up to the next terminator. *)
Fixpoint dot_star (s : string) : string * string :=
  match s with
  | EmptyString => (EmptyString, EmptyString)
  | String c s' =>
      if isLineTerminator c then (EmptyString, s)
      else let '(m, r) := dot_star s' in (String c m, r)
  end.

(** One attempt of [/^key.*$/m] at the current position.  [bol] tells
    whether [^] holds here.  After the greedy [.*] the position is at a
    terminator or at the end, so [$] holds and nothing backtracks. *)
Definition match_line_at (key : string) (bol : bool) (s : string)
  : option (string * string) :=
  if bol then
    match strip_prefix key s with
    | Some r => let '(m, rest) := dot_star r in Some (key +:+ m, rest)
    | None => None
    end
  else None.

(** [GetSubstitution] for a pattern without capture groups: [$$], [$&],
    [$`] and [$'] are expanded, every other code unit is copied. *)
Fixpoint GetSubstitution (matched before after repl : string) : string :=
  match repl with
  | EmptyString => EmptyString
  | String c r =>
      if Ascii.eqb c DOLLAR then
        match r with
        | EmptyString => String c EmptyString
        | String d r' =>
            if Ascii.eqb d DOLLAR then
              String DOLLAR (GetSubstitution matched before after r')
            else if Ascii.eqb d "&"%char then
              matched +:+ GetSubstitution matched before after r'
            else if Ascii.eqb d "`"%char then
              before +:+ GetSubstitution matched before after r'
            else if Ascii.eqb d "'"%char then
              after +:+ GetSubstitution matched before after r'
            else String c (String d (GetSubstitution matched before after r'))
        end
      else String c (GetSubstitution matched before after r)
  end.

(** [s.replace(/^key.*$/m, repl)] from a position on: the leftmost match
    is replaced, the text around it is copied. *)
Fixpoint replace_line_from (key repl : string) (bol : bool)
    (before s : string) : string :=
  match match_line_at key bol s with
  | Some (m, rest) => GetSubstitution m before rest repl +:+ rest
  | None =>
      match s with
      | EmptyString => EmptyString
      | String c s' =>
          String c (replace_line_from key repl (isLineTerminator c)
                      (before +:+ String c EmptyString) s')
      end
  end.

Definition replace_line (key repl s : string) : string :=
  replace_line_from key repl true EmptyString s.

(** Lazy [(.*?) -->]: the shortest run of non-terminators followed by
    [" -->"]; the capture and the text after the match. *)
Fixpoint lazy_until (close s : string) : option (string * string) :=
  match strip_prefix close s with
  | Some rest => Some (EmptyString, rest)
  | None =>
      match s with
      | EmptyString => None
      | String c s' =>
          if isLineTerminator c then None
          else match lazy_until close s' with
               | Some (u, rest) => Some (String c u, rest)
               | None => None
               end
      end
  end.

Definition UID_OPEN : string := "<!-- UID: ".
Definition UID_CLOSE : string := " -->".

(** The [while ((match = uidRegex.exec(content)) !== null)] loop of a
    global regular expression: leftmost match from [lastIndex], then
    [lastIndex] moves behind the match.  Every iteration consumes at least
    one code unit, so [fuel] = length of the text is enough. *)
Fixpoint exec_all (fuel : nat) (s : string) : list string :=
  match fuel with
  | O => []
  | S fuel' =>
      match s with
      | EmptyString => []
      | String _ s' =>
          match strip_prefix UID_OPEN s with
          | Some r =>
              match lazy_until UID_CLOSE r with
              | Some (uid, rest) => uid :: exec_all fuel' rest
              | None => exec_all fuel' s'
              end
          | None => exec_all fuel' s'
          end
      end
  end.

(** [parts.join(sep)]. *)
Fixpoint join (sep : string) (l : list string) : string :=
  match l with
  | [] => EmptyString
  | [x] => x
  | x :: l' => x +:+ sep +:+ join sep l'
  end.

(** [s.split("\n")]. *)
Fixpoint split_lf (s : string) : list string :=
  match s with
  | EmptyString => [EmptyString]
  | String c s' =>
      if Ascii.eqb c LF then EmptyString :: split_lf s'
      else match split_lf s' with
           | l :: ls => String c l :: ls
           | [] => [String c EmptyString]
           end
  end.

End Js.

Import Js.

(** Line feed and double quote as one-unit strings, and string building. *)
Definition nl : string := String LF EmptyString.
Definition dq : string := String "034"%char EmptyString.

(** [String(n)] for an integer. *)
Definition string_of_Z (z : Z) : string := NilZero.string_of_int (Z.to_int z).

(** [s.padStart(2, "0")]. *)
Definition padStart2 (s : string) : string :=
  match s with
  | EmptyString => "00"
  | String c EmptyString => String "0"%char s
  | _ => s
  end.

(** [arr.includes(x)] on an array of strings. *)
Definition includes (arr : list string) (x : string) : bool :=
  existsb (String.eqb x) arr.

(** [x || d] on strings: the empty string is falsy. *)
Definition str_or (x d : string) : string :=
  match x with EmptyString => d | _ => x end.

(* ================================================================= *)
(** ** Data model (the shapes [./types] declares, as the code uses them) *)

(** An element of [content.parts]: a string, or an object with optional
    [content_type] and [text]. *)
Inductive Part : Type :=
| PartString (s : string)
| PartObject (content_type : option string) (text : option string).

Record Content : Type := {
  content_type : option string;
  parts : option (list Part)          (* [None]: not an array *)
}.

Record Author : Type := {
  role : option string                 (* [None]: no [role] key *)
}.

Record ChatMessage : Type := {
  msg_id : string;                     (* empty: falsy *)
  author : option Author;
  msg_create_time : option Z;
  content : option Content
}.

(** A node of [chat.mapping]. *)
Record ChatMapping : Type := {
  node_id : string;
  message : option ChatMessage
}.

Record Chat : Type := {
  id : string;
  title : string;
  create_time : Z;
  update_time : Z;
  mapping : list (string * ChatMapping)   (* in enumeration order *)
}.

Record ConversationCatalogEntry : Type := {
  conversationId : string;
  path : string;
  updateTime : Z;
  provider : string
}.

(** What a slot of the catalog object can hold while a batch runs:
    [createNewNote] stores the bare path string, and
    [updateConversationCatalogEntry] stores an entry. *)
Inductive CatalogValue : Type :=
| CVPath (p : string)
| CVEntry (e : ConversationCatalogEntry).

Record PluginSettings : Type := {
  archiveFolder : string;
  addDatePrefix : bool;
  dateFormat : string
}.

Inductive TAbstractFile : Type :=
| TFile (text : string)
| TFolder.

Record FolderResult : Type := {
  success : bool;
  error : option string
}.

Record ReportEntry : Type := {
  re_title : string;
  re_filePath : string;
  re_createDate : string;
  re_updateDate : string;
  re_messageCount : option nat;
  re_reason : option string;
  re_errorMessage : option string
}.

Record ImportReport : Type := {
  created : list ReportEntry;
  updated : list ReportEntry;
  skipped : list ReportEntry;
  failed : list ReportEntry;
  globalErrors : list (string * string);
  summary : string
}.

Record ConversationCounters : Type := {
  totalExistingConversations : nat;
  totalNewConversationsToImport : nat;
  totalExistingConversationsToUpdate : nat;
  totalNewConversationsSuccessfullyImported : nat;
  totalConversationsActuallyUpdated : nat;
  totalConversationsProcessed : nat
}.

Record MessageCounters : Type := {
  totalNonEmptyMessagesToImport : nat;
  totalNonEmptyMessagesToAdd : nat;
  totalNonEmptyMessagesAdded : nat
}.

(** A file handed to the batch driver by the file picker. *)
Record File : Type := {
  name : string;
  lastModified : Z          (* when the export was written *)
}.

(* ================================================================= *)
(** ** What the source imports and this embedding takes as given *)

(** The helpers imported from [./utils], whose code is not part of the
    sources at hand.  They are parameters of the development. *)
Class Utils : Type := {
  formatTimestamp : Z -> string -> string;
  formatTitle : string -> string;
  isValidMessage : option ChatMessage -> bool;
  generateFileName : string -> string;
  generateUniqueFileName : string -> gmap string TAbstractFile -> string;
  doesFilePathExist : string -> gmap string TAbstractFile -> bool;
  ensureFolderExists :
    string -> gmap string TAbstractFile ->
    FolderResult * gmap string TAbstractFile
}.

(** The host: the clock and calendar of [Date], the plugin manifest, the
    collation of [localeCompare], and whether the vault refuses a write
    ([Some msg]: [vault.modify]/[vault.create] throws an error with that
    message). *)
Class Host : Type := {
  now : Z;
  getFullYear : Z -> Z;
  getMonth : Z -> Z;
  getDate : Z -> Z;
  manifest_id : string;
  localeCompare : string -> string -> Z;
  vault_refuses : string -> string -> option string
}.

(* ================================================================= *)
(** ** Note renderer and message merger *)

Section Renderer.
Context `{Utils} `{Host}.

(** The [date at time] rendering used in headers and message headings. *)
Definition dateAtTime (t : Z) : string :=
  formatTimestamp t "date" +:+ " at " +:+ formatTimestamp t "time".

(** The [date time] rendering used in report entries. *)
Definition dateTime (t : Z) : string :=
  formatTimestamp t "date" +:+ " " +:+ formatTimestamp t "time".

(** [updateMetadata]: two [replace] calls, each with the [m] flag and
    without the [g] flag. *)
Definition updateMetadata (content : string) (updateTime : Z) : string :=
  let updateTimeStr := dateAtTime updateTime in
  let content :=
    replace_line "update_time: " ("update_time: " +:+ updateTimeStr) content in
  let content :=
    replace_line "Last Updated: " ("Last Updated: " +:+ updateTimeStr) content in
  content.

(** [extractMessageUIDsFromNote]. *)
Definition extractMessageUIDsFromNote (content : string) : list string :=
  exec_all (String.length content) content.

(** The author label of [formatMessage]. *)
Definition authorName (m : ChatMessage) : string :=
  match author m with
  | Some a =>
      match role a with
      | Some r => if String.eqb r "user" then "User" else "ChatGPT"
      | None => "Unknown"
      end
  | None => "Unknown"
  end.

Definition headingLevel (m : ChatMessage) : string :=
  if String.eqb (authorName m) "User" then "###" else "####".

Definition quoteChar (m : ChatMessage) : string :=
  if String.eqb (authorName m) "User" then ">" else ">>".

(** The filter of [formatMessage] over [content.parts]. *)
Definition partKept (p : Part) : bool :=
  match p with
  | PartString _ => true
  | PartObject ct txt =>
      match ct with
      | Some c => String.eqb c "audio_transcription"
      | None => false
      end
      || match txt with
         | Some (String _ _) => true
         | _ => false
         end
  end.

(** The map of [formatMessage] over the kept parts. *)
Definition partText (p : Part) : string :=
  match p with
  | PartString s => s
  | PartObject _ txt => match txt with Some t => t | None => EmptyString end
  end.

Definition messageText (ps : list Part) : string :=
  join nl (map partText (List.filter partKept ps)).

(** The heading line of a message block.  A missing or zero [create_time]
    is falsy and replaced by the clock. *)
Definition messageHeading (m : ChatMessage) : string :=
  let t := match msg_create_time m with
           | Some t => if Z.eqb t 0 then now else t
           | None => now
           end in
  headingLevel m +:+ " " +:+ authorName m +:+ ", on " +:+ dateAtTime t
    +:+ ";" +:+ nl.

(** The quoted text of a message block, or the placeholder that stands for
    it. *)
Definition messageQuote (m : ChatMessage) : string :=
  match content m with
  | Some c =>
      match parts c with
      | Some ps =>
          match messageText ps with
          | EmptyString => quoteChar m +:+ " [No text content]"
          | txt =>
              join nl (map (fun line => quoteChar m +:+ " " +:+ line)
                         (split_lf txt))
          end
      | None => quoteChar m +:+ " [No content]"
      end
  | None => quoteChar m +:+ " [No content]"
  end.

(** Everything [formatMessage] emits before the marker line. *)
Definition messageBody (m : ChatMessage) : string :=
  messageHeading m +:+ messageQuote m.

(** The marker line of a message. *)
Definition markerLine (m : ChatMessage) : string :=
  nl +:+ UID_OPEN +:+ str_or (msg_id m) "unknown" +:+ UID_CLOSE +:+ nl.

(** What follows the marker line. *)
Definition messageTail (m : ChatMessage) : string :=
  (if String.eqb (authorName m) "ChatGPT" then nl +:+ "---" +:+ nl
   else EmptyString) +:+ nl +:+ nl.

(** [formatMessage]; [None] is the [!message] case.  Calls of the logger
    are left out: they do not change what is returned. *)
Definition formatMessage (message : option ChatMessage) : string :=
  match message with
  | None => EmptyString
  | Some m => messageBody m +:+ markerLine m +:+ messageTail m
  end.

(** The blocks [generateMessagesContent] appends, in enumeration order. *)
Definition messageBlocks (chat : Chat) : list string :=
  map (fun kv => formatMessage (message (snd kv)))
    (List.filter (fun kv =>
                    match message (snd kv) with
                    | Some _ => isValidMessage (message (snd kv))
                    | None => false
                    end)
       (mapping chat)).

Definition generateMessagesContent (chat : Chat) : string :=
  fold_left (fun acc b => acc +:+ b) (messageBlocks chat) EmptyString.

Definition generateHeader
    (title conversationId createTimeStr updateTimeStr : string) : string :=
  "---" +:+ nl +:+
  "nexus: " +:+ manifest_id +:+ nl +:+
  "provider: chatgpt" +:+ nl +:+
  "aliases: " +:+ dq +:+ title +:+ dq +:+ nl +:+
  "conversation_id: " +:+ conversationId +:+ nl +:+
  "create_time: " +:+ createTimeStr +:+ nl +:+
  "update_time: " +:+ updateTimeStr +:+ nl +:+
  "---" +:+ nl +:+
  nl +:+
  "# Title: " +:+ title +:+ nl +:+
  nl +:+
  "Created: " +:+ createTimeStr +:+ nl +:+
  "Last Updated: " +:+ updateTimeStr +:+ nl +:+ nl +:+ nl.

Definition generateMarkdownContent (chat : Chat) : string :=
  let formattedTitle := formatTitle (title chat) in
  let create_time_str := dateAtTime (create_time chat) in
  let update_time_str := dateAtTime (update_time chat) in
  generateHeader formattedTitle (id chat) create_time_str update_time_str
    +:+ generateMessagesContent chat.

(** [getNewMessages]: the nodes with a truthy id that is not among the
    scanned ones and whose message is valid, mapped to their messages. *)
Definition getNewMessages (chat : Chat) (existingMessageIds : list string)
  : list (option ChatMessage) :=
  map (fun kv => message (snd kv))
    (List.filter (fun kv =>
                    negb (String.eqb (node_id (snd kv)) EmptyString)
                    && negb (includes existingMessageIds (node_id (snd kv)))
                    && isValidMessage (message (snd kv)))
       (mapping chat)).

(** [formatNewMessages].  A message that is missing is dropped by one of
    the two filters: before rendering when it is [undefined], after it
    when it is [null] and renders as the empty string. *)
Definition formatNewMessages (messages : list (option ChatMessage)) : string :=
  join (nl +:+ nl)
    (List.filter (fun s => negb (String.eqb s EmptyString))
       (map formatMessage messages)).

(** The number of valid messages of a conversation, as [handleExistingChat]
    and [createNewNote] count it. *)
Definition validMessageCount (chat : Chat) : nat :=
  length (List.filter (fun kv => isValidMessage (message (snd kv)))
            (mapping chat)).

End Renderer.

(* ================================================================= *)
(** ** Plugin state and the monad of its methods *)

Record JsError : Type := { err_message : string }.

Inductive outcome (A : Type) : Type :=
| Returned (a : A)
| Thrown (e : JsError).
Arguments Returned {A} a.
Arguments Thrown {A} e.

(** The fields of the plugin object that the engine reads and writes, the
    vault behind [this.app.vault], the sequence of [vault.modify] and
    [vault.create] calls made so far, and what the logger received through
    [logger.error]. *)
Record Plugin : Type := {
  settings : PluginSettings;
  conversationCatalog : gmap string CatalogValue;
  importReport : ImportReport;
  conversationCounters : ConversationCounters;
  messageCounters : MessageCounters;
  vault : gmap string TAbstractFile;
  writes : list (string * string);
  console : list (string * string)
}.

Definition M (A : Type) : Type := Plugin -> outcome A * Plugin.

#[global] Instance M_ret : MRet M := fun A a p => (Returned a, p).

#[global] Instance M_bind : MBind M := fun A B f m p =>
  match m p with
  | (Returned a, p') => f a p'
  | (Thrown e, p') => (Thrown e, p')
  end.

Definition throw {A : Type} (msg : string) : M A :=
  fun p => (Thrown {| err_message := msg |}, p).

Definition rethrow {A : Type} (e : JsError) : M A :=
  fun p => (Thrown e, p).

(** [try { body } catch (e) { handler e }]: the handler runs in the state
    the body left behind. *)
Definition try_catch {A : Type} (body : M A) (handler : JsError -> M A) : M A :=
  fun p =>
    match body p with
    | (Returned a, p') => (Returned a, p')
    | (Thrown e, p') => handler e p'
    end.

Definition get : M Plugin := fun p => (Returned p, p).
Definition modify (f : Plugin -> Plugin) : M unit := fun p => (Returned tt, f p).

(** Field updates. *)
Definition with_catalog (f : gmap string CatalogValue -> gmap string CatalogValue)
    (p : Plugin) : Plugin :=
  {| settings := settings p;
     conversationCatalog := f (conversationCatalog p);
     importReport := importReport p;
     conversationCounters := conversationCounters p;
     messageCounters := messageCounters p;
     vault := vault p; writes := writes p; console := console p |}.

Definition with_report (f : ImportReport -> ImportReport) (p : Plugin) : Plugin :=
  {| settings := settings p;
     conversationCatalog := conversationCatalog p;
     importReport := f (importReport p);
     conversationCounters := conversationCounters p;
     messageCounters := messageCounters p;
     vault := vault p; writes := writes p; console := console p |}.

Definition with_counters (f : ConversationCounters -> ConversationCounters)
    (p : Plugin) : Plugin :=
  {| settings := settings p;
     conversationCatalog := conversationCatalog p;
     importReport := importReport p;
     conversationCounters := f (conversationCounters p);
     messageCounters := messageCounters p;
     vault := vault p; writes := writes p; console := console p |}.

Definition with_messageCounters (f : MessageCounters -> MessageCounters)
    (p : Plugin) : Plugin :=
  {| settings := settings p;
     conversationCatalog := conversationCatalog p;
     importReport := importReport p;
     conversationCounters := conversationCounters p;
     messageCounters := f (messageCounters p);
     vault := vault p; writes := writes p; console := console p |}.

Definition with_vault (f : gmap string TAbstractFile -> gmap string TAbstractFile)
    (p : Plugin) : Plugin :=
  {| settings := settings p;
     conversationCatalog := conversationCatalog p;
     importReport := importReport p;
     conversationCounters := conversationCounters p;
     messageCounters := messageCounters p;
     vault := f (vault p); writes := writes p; console := console p |}.

Definition with_writes (f : list (string * string) -> list (string * string))
    (p : Plugin) : Plugin :=
  {| settings := settings p;
     conversationCatalog := conversationCatalog p;
     importReport := importReport p;
     conversationCounters := conversationCounters p;
     messageCounters := messageCounters p;
     vault := vault p; writes := f (writes p); console := console p |}.

Definition with_console (f : list (string * string) -> list (string * string))
    (p : Plugin) : Plugin :=
  {| settings := settings p;
     conversationCatalog := conversationCatalog p;
     importReport := importReport p;
     conversationCounters := conversationCounters p;
     messageCounters := messageCounters p;
     vault := vault p; writes := writes p; console := f (console p) |}.

(* ----------------------------------------------------------------- *)
(** *** [ImportReport] *)

Definition emptyReport : ImportReport :=
  {| created := []; updated := []; skipped := []; failed := [];
     globalErrors := []; summary := EmptyString |}.

Definition addCreated (title filePath createDate updateDate : string)
    (messageCount : nat) (r : ImportReport) : ImportReport :=
  {| created := created r ++
       [{| re_title := title; re_filePath := filePath;
           re_createDate := createDate; re_updateDate := updateDate;
           re_messageCount := Some messageCount;
           re_reason := None; re_errorMessage := None |}];
     updated := updated r; skipped := skipped r; failed := failed r;
     globalErrors := globalErrors r; summary := summary r |}.

Definition addUpdated (title filePath createDate updateDate : string)
    (messageCount : nat) (r : ImportReport) : ImportReport :=
  {| created := created r;
     updated := updated r ++
       [{| re_title := title; re_filePath := filePath;
           re_createDate := createDate; re_updateDate := updateDate;
           re_messageCount := Some messageCount;
           re_reason := None; re_errorMessage := None |}];
     skipped := skipped r; failed := failed r;
     globalErrors := globalErrors r; summary := summary r |}.

Definition addSkipped (title filePath createDate updateDate : string)
    (messageCount : nat) (reason : string) (r : ImportReport) : ImportReport :=
  {| created := created r; updated := updated r;
     skipped := skipped r ++
       [{| re_title := title; re_filePath := filePath;
           re_createDate := createDate; re_updateDate := updateDate;
           re_messageCount := Some messageCount;
           re_reason := Some reason; re_errorMessage := None |}];
     failed := failed r;
     globalErrors := globalErrors r; summary := summary r |}.

Definition addFailed (title filePath createDate updateDate errorMessage : string)
    (r : ImportReport) : ImportReport :=
  {| created := created r; updated := updated r; skipped := skipped r;
     failed := failed r ++
       [{| re_title := title; re_filePath := filePath;
           re_createDate := createDate; re_updateDate := updateDate;
           re_messageCount := None;
           re_reason := None; re_errorMessage := Some errorMessage |}];
     globalErrors := globalErrors r; summary := summary r |}.

Definition addError (message details : string) (r : ImportReport) : ImportReport :=
  {| created := created r; updated := updated r; skipped := skipped r;
     failed := failed r;
     globalErrors := globalErrors r ++ [(message, details)];
     summary := summary r |}.

(** Counter increments. *)
Definition incr_toImport (c : ConversationCounters) : ConversationCounters :=
  {| totalExistingConversations := totalExistingConversations c;
     totalNewConversationsToImport := S (totalNewConversationsToImport c);
     totalExistingConversationsToUpdate := totalExistingConversationsToUpdate c;
     totalNewConversationsSuccessfullyImported :=
       totalNewConversationsSuccessfullyImported c;
     totalConversationsActuallyUpdated := totalConversationsActuallyUpdated c;
     totalConversationsProcessed := totalConversationsProcessed c |}.

Definition incr_toUpdate (c : ConversationCounters) : ConversationCounters :=
  {| totalExistingConversations := totalExistingConversations c;
     totalNewConversationsToImport := totalNewConversationsToImport c;
     totalExistingConversationsToUpdate := S (totalExistingConversationsToUpdate c);
     totalNewConversationsSuccessfullyImported :=
       totalNewConversationsSuccessfullyImported c;
     totalConversationsActuallyUpdated := totalConversationsActuallyUpdated c;
     totalConversationsProcessed := totalConversationsProcessed c |}.

Definition incr_imported (c : ConversationCounters) : ConversationCounters :=
  {| totalExistingConversations := totalExistingConversations c;
     totalNewConversationsToImport := totalNewConversationsToImport c;
     totalExistingConversationsToUpdate := totalExistingConversationsToUpdate c;
     totalNewConversationsSuccessfullyImported :=
       S (totalNewConversationsSuccessfullyImported c);
     totalConversationsActuallyUpdated := totalConversationsActuallyUpdated c;
     totalConversationsProcessed := totalConversationsProcessed c |}.

Definition incr_actuallyUpdated (c : ConversationCounters) : ConversationCounters :=
  {| totalExistingConversations := totalExistingConversations c;
     totalNewConversationsToImport := totalNewConversationsToImport c;
     totalExistingConversationsToUpdate := totalExistingConversationsToUpdate c;
     totalNewConversationsSuccessfullyImported :=
       totalNewConversationsSuccessfullyImported c;
     totalConversationsActuallyUpdated := S (totalConversationsActuallyUpdated c);
     totalConversationsProcessed := totalConversationsProcessed c |}.

Definition incr_processed (c : ConversationCounters) : ConversationCounters :=
  {| totalExistingConversations := totalExistingConversations c;
     totalNewConversationsToImport := totalNewConversationsToImport c;
     totalExistingConversationsToUpdate := totalExistingConversationsToUpdate c;
     totalNewConversationsSuccessfullyImported :=
       totalNewConversationsSuccessfullyImported c;
     totalConversationsActuallyUpdated := totalConversationsActuallyUpdated c;
     totalConversationsProcessed := S (totalConversationsProcessed c) |}.

Definition add_toImport (n : nat) (c : MessageCounters) : MessageCounters :=
  {| totalNonEmptyMessagesToImport := (totalNonEmptyMessagesToImport c + n)%nat;
     totalNonEmptyMessagesToAdd := totalNonEmptyMessagesToAdd c;
     totalNonEmptyMessagesAdded := totalNonEmptyMessagesAdded c |}.

Definition add_added (n : nat) (c : MessageCounters) : MessageCounters :=
  {| totalNonEmptyMessagesToImport := totalNonEmptyMessagesToImport c;
     totalNonEmptyMessagesToAdd := totalNonEmptyMessagesToAdd c;
     totalNonEmptyMessagesAdded := (totalNonEmptyMessagesAdded c + n)%nat |}.

(* ----------------------------------------------------------------- *)
(** *** The reconciliation engine *)

Section Engine.
Context `{Utils} `{Host}.

Definition logger_error (msg details : string) : M unit :=
  modify (with_console (fun c => c ++ [(msg, details)])).

(** [this.app.vault.getAbstractFileByPath]; an [undefined] path resolves
    to nothing. *)
Definition getAbstractFileByPath (filePath : option string) (p : Plugin)
  : option TAbstractFile :=
  match filePath with
  | Some f => vault p !! f
  | None => None
  end.

(** [vault.modify] and [vault.create]: the call is recorded, then the host
    either refuses it by throwing or stores the text. *)
Definition vault_store (filePath content : string) : M unit :=
  _ ← modify (with_writes (fun w => w ++ [(filePath, content)]));
  match vault_refuses filePath content with
  | Some msg => throw msg
  | None => modify (with_vault (fun v => <[filePath := TFile content]> v))
  end.

Definition writeToFile (filePath content : string) : M unit :=
  try_catch
    (p ← get;
     match getAbstractFileByPath (Some filePath) p with
     | Some (TFile _) => vault_store filePath content
     | Some TFolder =>
         throw ("Cannot write to '" +:+ filePath +:+ "'; it is a folder.")
     | None => vault_store filePath content
     end)
    (fun error =>
       _ ← logger_error
             ("Error creating or modifying file '" +:+ filePath +:+ "'")
             (err_message error);
       rethrow error).

(** [updateExistingNote].  When the path resolves to no file the [if] has
    no [else]: the method returns without a report entry.  The three arms
    of its [catch] differ only in the text given to the logger. *)
Definition updateExistingNote (chat : Chat) (filePath : option string)
    (totalMessageCount : nat) : M unit :=
  try_catch
    (p ← get;
     match filePath, getAbstractFileByPath filePath p with
     | Some fp, Some (TFile originalContent) =>
         let content := updateMetadata originalContent (update_time chat) in
         let existingMessageIds := extractMessageUIDsFromNote content in
         let newMessages := getNewMessages chat existingMessageIds in
         content ←
           (if (0 <? length newMessages)%nat then
              _ ← modify (with_counters incr_actuallyUpdated);
              _ ← modify (with_messageCounters (add_added (length newMessages)));
              mret (content +:+ nl +:+ nl +:+ formatNewMessages newMessages)
            else mret content);
         if negb (String.eqb content originalContent) then
           _ ← writeToFile fp content;
           modify (with_report
             (addUpdated (str_or (title chat) "Untitled") fp
                (dateTime (create_time chat)) (dateTime (update_time chat))
                totalMessageCount))
         else
           modify (with_report
             (addSkipped (str_or (title chat) "Untitled") fp
                (dateTime (create_time chat)) (dateTime (update_time chat))
                totalMessageCount "No changes needed"))
     | _, _ => mret tt
     end)
    (fun error => logger_error "General error updating note" (err_message error)).

(** [createNewNote].  [existingConversations] is the very object
    [this.conversationCatalog], so the assignment that ends the [try] block
    stores the bare path in the catalog. *)
Definition createNewNote (chat : Chat) (filePath : string) : M unit :=
  try_catch
    (let content := generateMarkdownContent chat in
     _ ← writeToFile filePath content;
     let messageCount := validMessageCount chat in
     _ ← modify (with_report
            (addCreated (str_or (title chat) "Untitled") filePath
               (dateTime (create_time chat)) (dateTime (update_time chat))
               messageCount));
     _ ← modify (with_counters incr_imported);
     _ ← modify (with_messageCounters (add_toImport messageCount));
     modify (with_catalog (fun m => <[id chat := CVPath filePath]> m)))
    (fun error =>
       _ ← logger_error "Error creating new note" (err_message error);
       _ ← modify (with_report
              (addFailed (str_or (title chat) "Untitled") filePath
                 (dateTime (create_time chat)) (dateTime (update_time chat))
                 (err_message error)));
       rethrow error).

Definition generateFilePath (title : string) (createdTime : Z)
    (prefixFormat archivePath : string) : M string :=
  let date := createdTime * 1000 in
  let year := string_of_Z (getFullYear date) in
  let month := padStart2 (string_of_Z (getMonth date + 1)) in
  let folderPath := archivePath +:+ "/" +:+ year +:+ "/" +:+ month in
  p ← get;
  let '(folderResult, v') := ensureFolderExists folderPath (vault p) in
  _ ← modify (with_vault (fun _ => v'));
  if negb (success folderResult) then
    throw (match error folderResult with
           | Some (String c e) => String c e
           | _ => "Failed to ensure folder exists."
           end)
  else
    let fileName := generateFileName title +:+ ".md" in
    let fileName :=
      if addDatePrefix (settings p) then
        let day := padStart2 (string_of_Z (getDate date)) in
        let prefix :=
          if String.eqb prefixFormat "YYYY-MM-DD" then
            year +:+ "-" +:+ month +:+ "-" +:+ day
          else if String.eqb prefixFormat "YYYYMMDD" then
            year +:+ month +:+ day
          else EmptyString in
        prefix +:+ " - " +:+ fileName
      else fileName in
    let filePath := folderPath +:+ "/" +:+ fileName in
    if doesFilePathExist filePath v' then
      mret (generateUniqueFileName filePath v')
    else mret filePath.

(** [handleExistingChat].  A bare string has no [updateTime] and no [path]:
    [undefined >= chat.update_time] is false and the path handed on is
    [undefined]. *)
Definition handleExistingChat (chat : Chat) (existingRecord : CatalogValue)
  : M unit :=
  let totalMessageCount := validMessageCount chat in
  match existingRecord with
  | CVEntry e =>
      if updateTime e >=? update_time chat then
        modify (with_report
          (addSkipped (str_or (title chat) "Untitled") (path e)
             (formatTimestamp (create_time chat) "date")
             (formatTimestamp (update_time chat) "date")
             totalMessageCount "No Updates"))
      else
        _ ← modify (with_counters incr_toUpdate);
        updateExistingNote chat (Some (path e)) totalMessageCount
  | CVPath _ =>
      _ ← modify (with_counters incr_toUpdate);
      updateExistingNote chat None totalMessageCount
  end.

Definition handleNewChat (chat : Chat) (filePath : string) : M unit :=
  _ ← modify (with_counters incr_toImport);
  createNewNote chat filePath.

Definition updateConversationCatalogEntry (chat : Chat) (filePath : string)
  : M unit :=
  modify (with_catalog (fun m =>
    <[id chat := CVEntry {| conversationId := id chat;
                            path := filePath;
                            updateTime := update_time chat;
                            provider := "chatgpt" |}]> m)).

Definition logErrorInReport (msg details : string) : M unit :=
  _ ← logger_error msg details;
  modify (with_report (addError msg details)).

(** Truthiness of [existingConversations[chat.id]]: a missing key and the
    empty string are falsy, everything else is truthy. *)
Definition existing (p : Plugin) (chat : Chat) : option CatalogValue :=
  match conversationCatalog p !! id chat with
  | Some (CVPath EmptyString) => None
  | r => r
  end.

(** The [try] block of [processSingleChat]. *)
Definition processSingleChat_try (chat : Chat) : M unit :=
  p ← get;
  _ ← match existing p chat with
      | Some existingRecord => handleExistingChat chat existingRecord
      | None =>
          filePath ← generateFilePath (title chat) (create_time chat)
                       (dateFormat (settings p)) (archiveFolder (settings p));
          _ ← handleNewChat chat filePath;
          updateConversationCatalogEntry chat filePath
      end;
  modify (with_counters incr_processed).

Definition processSingleChat (chat : Chat) : M unit :=
  try_catch (processSingleChat_try chat)
    (fun chatError =>
       let errorMessage := str_or (err_message chatError) "Unknown error occurred" in
       logErrorInReport
         ("Error processing chat: " +:+ str_or (title chat) "Untitled")
         errorMessage).

(** The [for (const chat of chats)] loop of [processConversations]. *)
Fixpoint processChats (chats : list Chat) : M unit :=
  match chats with
  | [] => mret tt
  | chat :: rest => _ ← processSingleChat chat; processChats rest
  end.

(** The state a method leaves behind, whatever its outcome. *)
Definition exec {A : Type} (m : M A) (p : Plugin) : Plugin := snd (m p).

(* ----------------------------------------------------------------- *)
(** *** The batch driver *)

(** [Array.prototype.sort] with a comparator, as a stable insertion sort:
    an element goes before the first later element that does not compare
    below it. *)
Fixpoint sort_insert {A : Type} (cmp : A -> A -> Z) (x : A) (l : list A) : list A :=
  match l with
  | [] => [x]
  | y :: l' => if cmp x y <=? 0 then x :: l else y :: sort_insert cmp x l'
  end.

Definition js_sort {A : Type} (cmp : A -> A -> Z) (l : list A) : list A :=
  foldr (sort_insert cmp) [] l.

(** The order in which [selectZipFile] hands the picked files to
    [handleZipFile]/[handleEchoesFile], one after the other. *)
Definition sortedFiles (files : list File) : list File :=
  js_sort (fun a b => localeCompare (name a) (name b)) files.

End Engine.

(* ================================================================= *)
(** ** Notions the properties are stated with *)

(** [s.startsWith(p)] as a test. *)
Definition startsWith (p s : string) : bool :=
  match strip_prefix p s with Some _ => true | None => false end.

(** [p] occurs somewhere in [s]. *)
Fixpoint occurs (p s : string) : bool :=
  startsWith p s ||
  match s with
  | EmptyString => false
  | String _ s' => occurs p s'
  end.

(** No code unit of [s] satisfies [f]. *)
Fixpoint noneOf (f : ascii -> bool) (s : string) : bool :=
  match s with
  | EmptyString => true
  | String c s' => negb (f c) && noneOf f s'
  end.

(** A text as its lines: each line with the terminator that ends it, the
    last line with none. *)
Fixpoint split_lines (s : string) : list (string * option ascii) :=
  match s with
  | EmptyString => [(EmptyString, None)]
  | String c s' =>
      if isLineTerminator c then (EmptyString, Some c) :: split_lines s'
      else match split_lines s' with
           | (l, t) :: ls => (String c l, t) :: ls
           | [] => [(String c EmptyString, None)]
           end
  end.

Fixpoint join_lines (ls : list (string * option ascii)) : string :=
  match ls with
  | [] => EmptyString
  | (l, Some c) :: ls' => l +:+ String c (join_lines ls')
  | (l, None) :: ls' => l +:+ join_lines ls'
  end.

(** The index of the first line that starts with [key]. *)
Fixpoint first_line_with (key : string) (ls : list (string * option ascii))
  : option nat :=
  match ls with
  | [] => None
  | (l, _) :: ls' =>
      if startsWith key l then Some O
      else option_map S (first_line_with key ls')
  end.

(** The first line that starts with [key] becomes [new]; its terminator
    and all other lines stay. *)
Fixpoint rewrite_first (key new : string) (ls : list (string * option ascii))
  : list (string * option ascii) :=
  match ls with
  | [] => []
  | (l, t) :: ls' =>
      if startsWith key l then (new, t) :: ls'
      else (l, t) :: rewrite_first key new ls'
  end.

(** A timestamp rendering that [replace] copies as it is and that stays on
    one line: no [$] and no line terminator. *)
Definition plain (s : string) : bool :=
  noneOf (fun c => isLineTerminator c || Ascii.eqb c DOLLAR) s.

(** An id that its marker line gives back: not empty, on one line, and
    without the closing [" -->"]. *)
Definition roundTrips (i : string) : bool :=
  negb (String.eqb i EmptyString)
  && noneOf isLineTerminator i
  && negb (occurs UID_CLOSE i).

(** A text in which no marker opens. *)
Definition markerFree (s : string) : bool := negb (occurs UID_OPEN s).

(** A text that is at its end or at a line terminator. *)
Definition atLineEnd (s : string) : Prop :=
  match s with
  | EmptyString => True
  | String c _ => isLineTerminator c = true
  end.

(** What may follow a marker-free text: nothing, or a code unit that
    cannot continue a marker opening. *)
Definition safeStart (x : string) : Prop :=
  match x with
  | EmptyString => True
  | String c _ => noneOf (Ascii.eqb c) "!-- UID: " = true
  end.

Section Notions.
Context `{Utils} `{Host}.

(** The valid messages of a conversation, in enumeration order: those
    [generateMessagesContent] renders. *)
Definition validMessages (chat : Chat) : list ChatMessage :=
  omap (fun kv =>
          match message (snd kv) with
          | Some m => if isValidMessage (Some m) then Some m else None
          | None => None
          end)
    (mapping chat).

(** The placeholder that stands for the text of a message without
    renderable text, if it has none. *)
Definition placeholder (m : ChatMessage) : option string :=
  match content m with
  | Some c =>
      match parts c with
      | Some ps =>
          match messageText ps with
          | EmptyString => Some "[No text content]"
          | _ => None
          end
      | None => Some "[No content]"
      end
  | None => Some "[No content]"
  end.

(** The text [updateExistingNote] ends up with for a note that reads
    [originalContent]. *)
Definition mergedContent (chat : Chat) (originalContent : string) : string :=
  let content := updateMetadata originalContent (update_time chat) in
  let newMessages := getNewMessages chat (extractMessageUIDsFromNote content) in
  if (0 <? length newMessages)%nat
  then content +:+ nl +:+ nl +:+ formatNewMessages newMessages
  else content.

(** The report entries of a conversation. *)
Definition entryOf (chat : Chat) (filePath createDate updateDate : string)
    (count : option nat) (reason err : option string) : ReportEntry :=
  {| re_title := str_or (title chat) "Untitled"; re_filePath := filePath;
     re_createDate := createDate; re_updateDate := updateDate;
     re_messageCount := count; re_reason := reason; re_errorMessage := err |}.

End Notions.

(** The export timestamps of a list of files are in ascending order. *)
Fixpoint chronological (fs : list File) : bool :=
  match fs with
  | [] => true
  | f :: fs' =>
      match fs' with
      | [] => true
      | g :: _ => (lastModified f <=? lastModified g) && chronological fs'
      end
  end.

(* ================================================================= *)
(** ** The report as a document, and the handler of deleted notes *)

(** Code units that [trim] removes: white space and line terminators. *)
Definition isWhiteSpace (c : ascii) : bool :=
  match nat_of_ascii c with
  | 9 | 10 | 11 | 12 | 13 | 32 | 160 => true
  | _ => false
  end%nat.

Fixpoint trimStart (s : string) : string :=
  match s with
  | EmptyString => EmptyString
  | String c s' => if isWhiteSpace c then trimStart s' else s
  end.

Fixpoint trimEnd (s : string) : string :=
  match s with
  | EmptyString => EmptyString
  | String c s' =>
      match trimEnd s' with
      | EmptyString => if isWhiteSpace c then EmptyString else String c EmptyString
      | t => String c t
      end
  end.

(** [s.trim()]. *)
Definition trim (s : string) : string := trimEnd (trimStart s).

(** [s.replace(/\n/g, " ")]. *)
Fixpoint newlinesToSpaces (s : string) : string :=
  match s with
  | EmptyString => EmptyString
  | String c s' =>
      String (if Ascii.eqb c LF then " "%char else c) (newlinesToSpaces s')
  end.

(** [s.repeat(n)]. *)
Fixpoint repeatString (s : string) (n : nat) : string :=
  match n with
  | O => EmptyString
  | S n' => s +:+ repeatString s n'
  end.

(** The cell of a report row under a header: the [switch] of
    [generateTable]. *)
Definition tableCell (sanitizedTitle : string) (entry : ReportEntry)
    (header : string) : string :=
  if String.eqb header "Title" then
    "[[" +:+ re_filePath entry +:+ "\|" +:+ sanitizedTitle +:+ "]]"
  else if String.eqb header "Created" then str_or (re_createDate entry) "-"
  else if String.eqb header "Updated" then str_or (re_updateDate entry) "-"
  else if String.eqb header "Messages" then
    match re_messageCount entry with
    | Some n => str_or (string_of_Z (Z.of_nat n)) "-"
    | None => "-"
    end
  else if String.eqb header "Reason" then
    match re_reason entry with
    | Some r => str_or r "-"
    | None => "-"
    end
  else "-".

Definition tableRow (emoji : string) (headers : list string)
    (entry : ReportEntry) : string :=
  let sanitizedTitle := trim (newlinesToSpaces (re_title entry)) in
  let row := map (tableCell sanitizedTitle entry) headers in
  "| " +:+ emoji +:+ " | " +:+ join " | " row +:+ " |" +:+ nl.

(** [ImportReport.generateTable]. *)
Definition generateTable (title : string) (entries : list ReportEntry)
    (emoji : string) (headers : list string) : string :=
  let table := "## " +:+ title +:+ nl +:+ nl in
  let table := table +:+ "| " +:+ join " | " headers +:+ " |" +:+ nl in
  let table := table +:+ repeatString "|:---:" (length headers) +:+ "|" +:+ nl in
  let table :=
    fold_left (fun table entry => table +:+ tableRow emoji headers entry)
      entries table in
  table +:+ nl +:+ nl.

(** [ImportReport.generateErrorTable]. *)
Definition generateErrorTable (title : string)
    (entries : list (string * string)) (emoji : string) : string :=
  let table := "## " +:+ title +:+ nl +:+ nl in
  let table := table +:+ "| | Error | Details |" +:+ nl in
  let table := table +:+ "|---|:---|:---|" +:+ nl in
  let table :=
    fold_left (fun table entry =>
                 table +:+ "| " +:+ emoji +:+ " | " +:+ fst entry +:+ " | "
                   +:+ snd entry +:+ " |" +:+ nl)
      entries table in
  table +:+ nl +:+ nl.

(** [ImportReport.generateReportContent]. *)
Definition generateReportContent (r : ImportReport) : string :=
  let content := "# Nexus AI Chat Importer report" +:+ nl +:+ nl in
  let content :=
    match summary r with
    | EmptyString => content
    | sm => content +:+ sm +:+ nl +:+ nl
    end in
  let content := content +:+ "## Legend" +:+ nl in
  let content :=
    content +:+ "✨ Created | 🔄 Updated | ⏭️ Skipped | 🚫 Failed | ⚠️ Global Errors"
      +:+ nl +:+ nl in
  let content :=
    if (0 <? length (created r))%nat then
      content +:+ generateTable "Created notes" (created r) "✨"
                    ["Title"; "Created"; "Updated"; "Messages"]
    else content in
  let content :=
    if (0 <? length (updated r))%nat then
      content +:+ generateTable "Updated notes" (updated r) "🔄"
                    ["Title"; "Created"; "Updated"; "Added messages"]
    else content in
  let content :=
    if (0 <? length (skipped r))%nat then
      content +:+ generateTable "Skipped notes" (skipped r) "⏭️"
                    ["Title"; "Created"; "Updated"; "Messages"]
    else content in
  let content :=
    if (0 <? length (failed r))%nat then
      content +:+ generateTable "Failed imports" (failed r) "🚫"
                    ["Title"; "Created"; "Updated"; "Error"]
    else content in
  let content :=
    if (0 <? length (globalErrors r))%nat then
      content +:+ generateErrorTable "Global errors" (globalErrors r) "⚠️"
    else content in
  content.

(** [ImportReport.hasErrors]. *)
Definition hasErrors (r : ImportReport) : bool :=
  (0 <? length (failed r))%nat || (0 <? length (globalErrors r))%nat.



(** Whether a method throws in a state. *)
Definition threw {A : Type} (m : M A) (p : Plugin) : bool :=
  match fst (m p) with
  | Thrown _ => true
  | Returned _ => false
  end.

(** Every slot of the catalog holds an entry, stored under the id of its
    conversation. *)
Definition slotOk (slot : string * CatalogValue) : bool :=
  match snd slot with
  | CVEntry e => String.eqb (conversationId e) (fst slot)
  | CVPath _ => false
  end.

Definition catalogOk (cat : gmap string CatalogValue) : bool :=
  forallb slotOk (map_to_list cat).

(** The entry [updateConversationCatalogEntry] stores. *)
Definition entryFor (chat : Chat) (filePath : string) : CatalogValue :=
  CVEntry {| conversationId := id chat; path := filePath;
             updateTime := update_time chat; provider := "chatgpt" |}.

(** The number of conversations counted as processed. *)
Definition processed (p : Plugin) : nat :=
  totalConversationsProcessed (conversationCounters p).

(** The number of created, updated and skipped entries of a report. *)
Definition outcomes (r : ImportReport) : nat :=
  (length (created r) + length (updated r) + length (skipped r))%nat.

(** A report entry without what only some tables could show. *)
Definition shownInTables (e : ReportEntry) : ReportEntry :=
  {| re_title := re_title e; re_filePath := re_filePath e;
     re_createDate := re_createDate e; re_updateDate := re_updateDate e;
     re_messageCount := None; re_reason := None; re_errorMessage := None |}.

(* ================================================================= *)
(** ** Notions for merging into an existing note *)

(** The lines of a text that is followed by a line terminator [c]: the
    last line gets [c] as its terminator. *)
Fixpoint close_last (c : ascii) (ls : list (string * option ascii))
  : list (string * option ascii) :=
  match ls with
  | [] => []
  | [(l, _)] => [(l, Some c)]
  | lt :: ls' => lt :: close_last c ls'
  end.

(** Some line of a text starts with [key]. *)
Definition hasLine (key s : string) : bool :=
  match first_line_with key (split_lines s) with
  | Some _ => true
  | None => false
  end.

Section MergeNotions.
Context `{Utils} `{Host}.

(** The nodes [getNewMessages] selects. *)
Definition newNodes (chat : Chat) (existingMessageIds : list string)
  : list (string * ChatMapping) :=
  List.filter (fun kv =>
                 negb (String.eqb (node_id (snd kv)) EmptyString)
                 && negb (includes existingMessageIds (node_id (snd kv)))
                 && isValidMessage (message (snd kv)))
    (mapping chat).

(** A node whose message carries the id of the node, an id that
    round-trips, and in whose heading and quoted text no marker opens. *)
Definition nodeRenders (kv : string * ChatMapping) : bool :=
  match message (snd kv) with
  | Some m =>
      String.eqb (msg_id m) (node_id (snd kv))
      && markerFree (messageBody m)
      && roundTrips (msg_id m)
  | None => false
  end.

(** Every node that a merge can pick, by its id and its validity, is such
    a node. *)
Definition nodeMergeable (kv : string * ChatMapping) : bool :=
  if negb (String.eqb (node_id (snd kv)) EmptyString)
     && isValidMessage (message (snd kv))
  then nodeRenders kv
  else true.

Definition mergeable (chat : Chat) : bool := forallb nodeMergeable (mapping chat).

End MergeNotions.

(* ================================================================= *)
(** ** Notions for the header of a note and for the tables of the report *)

(** A text without line terminator. *)
Definition oneLine (s : string) : bool := noneOf isLineTerminator s.

(** Lines, each ended by a line feed, before [rest]. *)
Definition unlines (ls : list string) (rest : string) : string :=
  foldr (fun l acc => l +:+ String LF acc) rest ls.

(** A conversation at another revision. *)
Definition withUpdateTime (chat : Chat) (t : Z) : Chat :=
  {| id := id chat; title := title chat; create_time := create_time chat;
     update_time := t; mapping := mapping chat |}.

(** A report whose updated and failed entries are reduced to what the
    tables show of them. *)
Definition withoutDetails (r : ImportReport) : ImportReport :=
  {| created := created r;
     updated := map shownInTables (updated r);
     skipped := skipped r;
     failed := map shownInTables (failed r);
     globalErrors := globalErrors r;
     summary := summary r |}.

Section HeaderNotions.
Context `{Host}.

(** The lines of the header [generateHeader] builds. *)
Definition headerLines (title conversationId createTimeStr updateTimeStr : string)
  : list string :=
  [ "---";
    "nexus: " +:+ manifest_id;
    "provider: chatgpt";
    "aliases: " +:+ dq +:+ title +:+ dq;
    "conversation_id: " +:+ conversationId;
    "create_time: " +:+ createTimeStr;
    "update_time: " +:+ updateTimeStr;
    "---";
    EmptyString;
    "# Title: " +:+ title;
    EmptyString;
    "Created: " +:+ createTimeStr;
    "Last Updated: " +:+ updateTimeStr;
    EmptyString;
    EmptyString ].

End HeaderNotions.

(* ================================================================= *)
(** ** A concrete host, concrete helpers and concrete conversations *)

Module Sample.

(** Modelled from the spec: [isValidMessage] of [./utils], which is not
    among the sources.  A message is valid only if it yields at least one
    non-empty textual part after filtering out unrenderable part types. *)
Definition isValidMessage_spec (m : option ChatMessage) : bool :=
  match m with
  | Some m =>
      match content m with
      | Some c =>
          match parts c with
          | Some ps =>
              existsb (fun p => partKept p
                                && negb (String.eqb (partText p) EmptyString)) ps
          | None => false
          end
      | None => false
      end
  | None => false
  end.

Definition folderOk : FolderResult := {| success := true; error := None |}.

(** Helpers that behave: timestamps print as a letter and the number of
    seconds, folders can always be made. *)
Definition utils : Utils :=
  {| formatTimestamp := fun t mode =>
       (if String.eqb mode "date" then "d" else "t") +:+ string_of_Z t;
     formatTitle := fun t => t;
     isValidMessage := isValidMessage_spec;
     generateFileName := fun t => str_or t "Untitled";
     generateUniqueFileName := fun f _ => f +:+ " 1";
     doesFilePathExist := fun f v =>
       match v !! f with Some _ => true | None => false end;
     ensureFolderExists := fun _ v => (folderOk, v) |}.


Definition compareNames (a b : string) : Z :=
  match String.compare a b with Lt => -1 | Eq => 0 | Gt => 1 end.

(** A host that accepts every write; names collate by code unit; the
    calendar is reduced to two years. *)
Definition host : Host :=
  {| now := 1700000000;
     getFullYear := fun ms => if ms <? 1700000050000 then 2023 else 2024;
     getMonth := fun _ => 10;
     getDate := fun _ => 14;
     manifest_id := "nexus-ai-chat-importer";
     localeCompare := compareNames;
     vault_refuses := fun _ _ => None |}.

(** A host whose vault refuses every write. *)
Definition hostReadOnly : Host :=
  {| now := @now host;
     getFullYear := @getFullYear host;
     getMonth := @getMonth host;
     getDate := @getDate host;
     manifest_id := @manifest_id host;
     localeCompare := @localeCompare host;
     vault_refuses := fun _ _ => Some "EROFS" |}.

Definition textMessage (i r txt : string) : ChatMessage :=
  {| msg_id := i;
     author := Some {| role := Some r |};
     msg_create_time := Some 1700000001;
     content := Some {| content_type := Some "text";
                        parts := Some [PartString txt] |} |}.

Definition node (i : string) (m : option ChatMessage) : string * ChatMapping :=
  (i, {| node_id := i; message := m |}).

(** The conversation of the specification's example. *)
Definition trip : Chat :=
  {| id := "c1"; title := "Trip";
     create_time := 1700000000; update_time := 1700000000;
     mapping := [node "m1" (Some (textMessage "m1" "user" "Hi"));
                 node "m2" (Some (textMessage "m2" "assistant" "Hello"))] |}.

(** A later revision of it with one more message. *)
Definition tripLater : Chat :=
  {| id := "c1"; title := "Trip";
     create_time := 1700000000; update_time := 1700000500;
     mapping := mapping trip ++
                [node "m3" (Some (textMessage "m3" "user" "Thanks"))] |}.

(** A later revision of it with nothing but a newer timestamp. *)
Definition tripTouched : Chat :=
  {| id := "c1"; title := "Trip";
     create_time := 1700000000; update_time := 1700000500;
     mapping := mapping trip |}.

(** Another conversation, created in the other year of the calendar. *)
Definition other : Chat :=
  {| id := "c2"; title := "Other";
     create_time := 1700000100; update_time := 1700000100;
     mapping := [node "n1" (Some (textMessage "n1" "user" "Hey"))] |}.

(** A conversation one of whose messages quotes a marker line. *)
Definition quoting : Chat :=
  {| id := "c3"; title := "Markers";
     create_time := 1700000000; update_time := 1700000000;
     mapping := [node "m1" (Some (textMessage "m1" "user"
                                    "what is <!-- UID: x --> for?"))] |}.

(** A conversation with a root node without message, a message without
    content and a message with text. *)
Definition sparse : Chat :=
  {| id := "c4"; title := "Sparse";
     create_time := 1700000000; update_time := 1700000000;
     mapping := [node "root" None;
                 node "m1" (Some {| msg_id := "m1";
                                    author := Some {| role := Some "user" |};
                                    msg_create_time := Some 1700000001;
                                    content := None |});
                 node "m2" (Some (textMessage "m2" "assistant" "Hello"))] |}.

Definition systemMessage : ChatMessage := textMessage "s1" "system" "You are helpful".
Definition assistantMessage : ChatMessage := textMessage "a1" "assistant" "Hello".

Definition emptyPlugin : Plugin :=
  {| settings := {| archiveFolder := "Nexus AI Chat Imports";
                    addDatePrefix := false;
                    dateFormat := "YYYY-MM-DD" |};
     conversationCatalog := ∅;
     importReport := emptyReport;
     conversationCounters :=
       {| totalExistingConversations := 0;
          totalNewConversationsToImport := 0;
          totalExistingConversationsToUpdate := 0;
          totalNewConversationsSuccessfullyImported := 0;
          totalConversationsActuallyUpdated := 0;
          totalConversationsProcessed := 0 |};
     messageCounters :=
       {| totalNonEmptyMessagesToImport := 0;
          totalNonEmptyMessagesToAdd := 0;
          totalNonEmptyMessagesAdded := 0 |};
     vault := ∅; writes := []; console := [] |}.

(** The plugin after [trip] was imported into an empty vault. *)
Definition afterTrip : Plugin :=
  with_console (fun _ => [])
    (with_writes (fun _ => [])
       (with_report (fun _ => emptyReport)
          (@exec unit (@processSingleChat utils host trip) emptyPlugin))).

(** The same plugin after the note of [trip] was deleted behind its back. *)
Definition afterTripNoteGone : Plugin :=
  with_vault (fun _ => ∅) afterTrip.

Definition tripPath : string := "Nexus AI Chat Imports/2023/11/Trip.md".

(** Two exports picked together: the one written first sorts last by
    name. *)
Definition exportJanuary : File :=
  {| name := "b7e1-2024-01-05-10-00-00.zip"; lastModified := 1704448800 |}.
Definition exportJune : File :=
  {| name := "a3c9-2024-06-20-10-00-00.zip"; lastModified := 1718877600 |}.

End Sample.

(* ================================================================= *)
(** ** Strings *)

Lemma app_cons c s t : String c s +:+ t = String c (s +:+ t).
Proof. reflexivity. Qed.

Lemma app_nil_l s : EmptyString +:+ s = s.
Proof. reflexivity. Qed.

Lemma app_nil_r s : s +:+ EmptyString = s.
Proof. induction s as [|c s IH]; [done | by rewrite app_cons, IH]. Qed.

Lemma app_assoc s t u : (s +:+ t) +:+ u = s +:+ t +:+ u.
Proof. induction s as [|c s IH]; [done | by rewrite !app_cons, IH]. Qed.

Lemma app_length s t :
  String.length (s +:+ t) = (String.length s + String.length t)%nat.
Proof. induction s as [|c s IH]; [done | rewrite app_cons; simpl; lia]. Qed.

Lemma strip_prefix_app p x : strip_prefix p (p +:+ x) = Some x.
Proof.
  induction p as [|a p IH]; [done|].
  rewrite app_cons. simpl. by rewrite Ascii.eqb_refl.
Qed.

Lemma strip_prefix_Some p s r : strip_prefix p s = Some r -> s = p +:+ r.
Proof.
  revert s. induction p as [|a p IH]; intros s Hs; simpl in Hs.
  - by inversion Hs.
  - destruct s as [|b s]; [done|].
    destruct (Ascii.eqb a b) eqn:E; [|done].
    apply Ascii.eqb_eq in E as ->. rewrite app_cons. f_equal. by apply IH.
Qed.

Lemma startsWith_app p x : startsWith p (p +:+ x) = true.
Proof. unfold startsWith. by rewrite strip_prefix_app. Qed.

Lemma startsWith_head a p c s : startsWith (String a p) (String c s) = true -> a = c.
Proof.
  unfold startsWith. simpl. destruct (Ascii.eqb a c) eqn:E; [|done].
  intros _. by apply Ascii.eqb_eq.
Qed.

Lemma startsWith_nil a p : startsWith (String a p) EmptyString = false.
Proof. done. Qed.

Lemma noneOf_app f s t : noneOf f (s +:+ t) = noneOf f s && noneOf f t.
Proof.
  induction s as [|c s IH]; [done|].
  rewrite app_cons. simpl. rewrite IH. by rewrite andb_assoc.
Qed.

Lemma noneOf_weaken (f g : ascii -> bool) s :
  (forall c, g c = true -> f c = true) -> noneOf f s = true -> noneOf g s = true.
Proof.
  intros Hfg. induction s as [|c s IH]; [done|]. simpl.
  intros [Hc Hs]%andb_true_iff. rewrite IH by done.
  destruct (g c) eqn:E; [|done]. apply Hfg in E. by rewrite E in Hc.
Qed.

(* ================================================================= *)
(** ** The metadata rewrite, line by line *)

Lemma split_lines_cons s : exists l t ls, split_lines s = (l, t) :: ls.
Proof.
  induction s as [|c s (l & t & ls & IH)]; simpl; [by eauto|].
  destruct (isLineTerminator c); [by eauto|]. rewrite IH. by eauto.
Qed.

Lemma join_split_lines s : join_lines (split_lines s) = s.
Proof.
  induction s as [|c s IH]; [done|]. simpl.
  destruct (isLineTerminator c); simpl; [by rewrite IH|].
  destruct (split_lines_cons s) as (l & t & ls & E). rewrite E in *.
  simpl in *. destruct t; rewrite app_cons; by rewrite IH.
Qed.

Lemma split_lines_inj s t : split_lines s = split_lines t -> s = t.
Proof.
  intros E. rewrite <- (join_split_lines s), <- (join_split_lines t). by rewrite E.
Qed.

Lemma split_lines_atLineEnd s :
  atLineEnd s -> exists t ls, split_lines s = (EmptyString, t) :: ls.
Proof.
  destruct s as [|c s]; simpl; [by eauto|]. intros ->. by eauto.
Qed.

Lemma split_lines_app l rest :
  noneOf isLineTerminator l = true ->
  split_lines (l +:+ rest) =
    match split_lines rest with
    | (l0, t) :: ls => (l +:+ l0, t) :: ls
    | [] => []
    end.
Proof.
  destruct (split_lines_cons rest) as (l0 & t & ls & E). rewrite E.
  induction l as [|c l IH]; intros Hl.
  - by rewrite !app_nil_l.
  - simpl in Hl. apply andb_true_iff in Hl as [Hc Hl].
    rewrite app_cons. simpl. apply negb_true_iff in Hc. rewrite Hc.
    by rewrite IH.
Qed.

Lemma dot_star_spec s m r :
  dot_star s = (m, r) ->
  s = m +:+ r /\ noneOf isLineTerminator m = true /\ atLineEnd r.
Proof.
  revert m r. induction s as [|c s IH]; intros m r; simpl.
  - by intros [= <- <-].
  - destruct (isLineTerminator c) eqn:E.
    + intros [= <- <-]. simpl. by rewrite E.
    + destruct (dot_star s) as [m' r'] eqn:D. intros [= <- <-].
      destruct (IH _ _ eq_refl) as (-> & Hm & Hr).
      rewrite app_cons. simpl. by rewrite E.
Qed.

(** Whether a text starts with [key] is decided within its first line. *)
Lemma startsWith_first_line key l rest :
  noneOf isLineTerminator key = true -> atLineEnd rest ->
  startsWith key (l +:+ rest) = startsWith key l.
Proof.
  unfold startsWith. revert l. induction key as [|a key IH]; intros l Hk Hr; [done|].
  simpl in Hk. apply andb_true_iff in Hk as [Ha Hk].
  destruct l as [|b l].
  - rewrite app_nil_l. destruct rest as [|c rest]; [done|]. simpl in *.
    destruct (Ascii.eqb a c) eqn:E; [|done].
    apply Ascii.eqb_eq in E as ->. by rewrite Hr in Ha.
  - rewrite app_cons. simpl. destruct (Ascii.eqb a b); [|done]. by apply IH.
Qed.

Lemma split_lines_decompose s l t ls :
  split_lines s = (l, t) :: ls ->
  noneOf isLineTerminator l = true /\
  exists rest, s = l +:+ rest /\ atLineEnd rest.
Proof.
  revert l t ls. induction s as [|c s IH]; intros l t ls; simpl.
  - intros [= <- <- <-]. split; [done|]. by exists EmptyString.
  - destruct (isLineTerminator c) eqn:E.
    + intros [= <- <- <-]. split; [done|]. exists (String c s). by simpl.
    + destruct (split_lines_cons s) as (l' & t' & ls' & E'). rewrite E'.
      intros [= <- <- <-]. destruct (IH _ _ _ E') as (Hl & rest & -> & Hr).
      simpl. rewrite E. split; [done|]. exists rest. by rewrite app_cons.
Qed.

Lemma startsWith_split_lines key s l t ls :
  noneOf isLineTerminator key = true ->
  split_lines s = (l, t) :: ls -> startsWith key s = startsWith key l.
Proof.
  intros Hk Hs. destruct (split_lines_decompose _ _ _ _ Hs) as (_ & rest & -> & Hr).
  by apply startsWith_first_line.
Qed.

Lemma GetSubstitution_plain m b a repl :
  noneOf (fun c => Ascii.eqb c DOLLAR) repl = true ->
  GetSubstitution m b a repl = repl.
Proof.
  induction repl as [|c r IH]; [done|]. simpl.
  intros [Hc Hr]%andb_true_iff. apply negb_true_iff in Hc. rewrite Hc.
  by rewrite IH.
Qed.

Section ReplaceLine.
Variables (key repl : string).
Hypothesis key_line : noneOf isLineTerminator key = true.
Hypothesis key_nonempty : key <> EmptyString.
Hypothesis repl_plain : plain repl = true.

Lemma repl_one_line : noneOf isLineTerminator repl = true.
Proof.
  revert repl_plain. apply noneOf_weaken. intros c ->. done.
Qed.

Lemma repl_no_dollar : noneOf (fun c => Ascii.eqb c DOLLAR) repl = true.
Proof.
  revert repl_plain. apply noneOf_weaken. intros c ->. apply orb_true_r.
Qed.

Lemma startsWith_key_nil : startsWith key EmptyString = false.
Proof. destruct key; [by destruct key_nonempty | done]. Qed.

(** The scanner over code units does what [rewrite_first] does over
    lines; in the middle of a line ([bol = false]) it first leaves the
    rest of that line alone. *)
Lemma split_replace_line_from s : forall bol before,
  split_lines (replace_line_from key repl bol before s) =
    if bol then rewrite_first key repl (split_lines s)
    else match split_lines s with
         | lt :: ls => lt :: rewrite_first key repl ls
         | [] => []
         end.
Proof.
  induction s as [|c s IH]; intros bol before.
  - assert (match_line_at key bol EmptyString = None) as E.
    { unfold match_line_at. destruct bol; [|done].
      destruct key; [by destruct key_nonempty | done]. }
    simpl. rewrite E. simpl. rewrite startsWith_key_nil. by destruct bol.
  - destruct (split_lines_cons (String c s)) as (l & t & ls & Hs).
    pose proof (startsWith_split_lines key _ _ _ _ key_line Hs) as Hsw.
    rewrite Hs. unfold replace_line_from; fold replace_line_from.
    destruct (match_line_at key bol (String c s)) as [[m rest]|] eqn:Hm.
    + (* the line starts here and starts with [key] *)
      unfold match_line_at in Hm. destruct bol; [|done].
      destruct (strip_prefix key (String c s)) as [r|] eqn:Hp; [|done].
      destruct (dot_star r) as [m' rest'] eqn:Hd. injection Hm as <- <-.
      destruct (dot_star_spec _ _ _ Hd) as (-> & Hm' & Hrest).
      apply strip_prefix_Some in Hp.
      rewrite GetSubstitution_plain by apply repl_no_dollar.
      destruct (split_lines_atLineEnd _ Hrest) as (t' & ls' & Hr).
      rewrite split_lines_app, Hr, app_nil_r by apply repl_one_line.
      rewrite Hp, <- app_assoc in Hs.
      rewrite split_lines_app, Hr, app_nil_r in Hs
        by (rewrite noneOf_app, key_line, Hm'; done).
      injection Hs as <- <- <-. simpl. by rewrite startsWith_app.
    + (* no match here: the code unit is copied *)
      assert (bol = true -> startsWith key l = false) as Hno.
      { intros ->. rewrite <- Hsw. unfold match_line_at in Hm. unfold startsWith.
        destruct (strip_prefix key (String c s)); [|done].
        by destruct (dot_star s0). }
      simpl in Hs. simpl split_lines. destruct (isLineTerminator c) eqn:Hc.
      * injection Hs as <- <- <-. rewrite (IH true).
        destruct bol; [|done]. simpl. by rewrite startsWith_key_nil.
      * rewrite (IH false).
        destruct (split_lines_cons s) as (l' & t' & ls' & Hs'). rewrite Hs' in *.
        injection Hs as <- <- <-.
        destruct bol; [|done]. simpl. by rewrite Hno.
Qed.

Lemma split_replace_line s :
  split_lines (replace_line key repl s) = rewrite_first key repl (split_lines s).
Proof. apply (split_replace_line_from s true). Qed.

End ReplaceLine.

Lemma rewrite_first_length key new ls :
  length (rewrite_first key new ls) = length ls.
Proof.
  induction ls as [|[l t] ls IH]; [done|]. simpl.
  destruct (startsWith key l); simpl; by rewrite ?IH.
Qed.

(** A line that [rewrite_first] changes is the first one that starts with
    [key]; it becomes [new] and keeps its terminator. *)
Lemma rewrite_first_lookup key new ls : forall i l l',
  ls !! i = Some l -> rewrite_first key new ls !! i = Some l' ->
  snd l' = snd l /\
  (l' <> l -> first_line_with key ls = Some i /\ fst l' = new).
Proof.
  induction ls as [|[l0 t0] ls IH]; intros i l l'; [done|]. simpl.
  destruct (startsWith key l0) eqn:E.
  - destruct i as [|i]; simpl.
    + by intros [= <-] [= <-].
    + intros -> [= <-]. done.
  - destruct i as [|i]; simpl.
    + by intros [= <-] [= <-].
    + intros Hl Hl'. destruct (IH _ _ _ Hl Hl') as [Hs Hc]. split; [done|].
      intros Hne. destruct (Hc Hne) as [-> ->]. done.
Qed.

Section TwoKeys.
Variables (k1 n1 k2 n2 : string).
Hypothesis apart : forall l, startsWith k1 l = true -> startsWith k2 l = false.
Hypothesis n1_k1 : startsWith k1 n1 = true.
Hypothesis n2_k2 : startsWith k2 n2 = true.

Lemma apart_sym l : startsWith k2 l = true -> startsWith k1 l = false.
Proof.
  intros E. destruct (startsWith k1 l) eqn:E1; [|done].
  apply apart in E1. congruence.
Qed.

Lemma first_line_with_rewrite_other ls :
  first_line_with k2 (rewrite_first k1 n1 ls) = first_line_with k2 ls.
Proof.
  induction ls as [|[l t] ls IH]; [done|]. simpl.
  destruct (startsWith k1 l) eqn:E1; simpl.
  - by rewrite (apart _ E1), (apart _ n1_k1).
  - by rewrite IH.
Qed.

Lemma rewrite_first_idem ls :
  rewrite_first k1 n1 (rewrite_first k1 n1 ls) = rewrite_first k1 n1 ls.
Proof.
  induction ls as [|[l t] ls IH]; [done|]. simpl.
  destruct (startsWith k1 l) eqn:E1; simpl.
  - by rewrite n1_k1.
  - by rewrite E1, IH.
Qed.

Lemma rewrite_first_comm ls :
  rewrite_first k1 n1 (rewrite_first k2 n2 ls) =
  rewrite_first k2 n2 (rewrite_first k1 n1 ls).
Proof.
  induction ls as [|[l t] ls IH]; [done|]. simpl.
  destruct (startsWith k1 l) eqn:E1, (startsWith k2 l) eqn:E2; simpl.
  - apply apart in E1. congruence.
  - by rewrite E1, (apart _ n1_k1).
  - by rewrite E2, (apart_sym _ n2_k2).
  - by rewrite E1, E2, IH.
Qed.

End TwoKeys.

Lemma rewrite_twice_idem k1 n1 k2 n2 ls :
  (forall l, startsWith k1 l = true -> startsWith k2 l = false) ->
  startsWith k1 n1 = true -> startsWith k2 n2 = true ->
  rewrite_first k2 n2 (rewrite_first k1 n1
    (rewrite_first k2 n2 (rewrite_first k1 n1 ls))) =
  rewrite_first k2 n2 (rewrite_first k1 n1 ls).
Proof.
  intros Ha H1 H2.
  rewrite (rewrite_first_comm k1 n1 k2 n2 Ha H1 H2 (rewrite_first k1 n1 ls)).
  rewrite (rewrite_first_idem k1 n1 H1).
  by rewrite (rewrite_first_idem k2 n2 H2).
Qed.

Lemma keys_apart l :
  startsWith "update_time: " l = true -> startsWith "Last Updated: " l = false.
Proof.
  destruct l as [|c l]; [done|]. intros E1.
  destruct (startsWith "Last Updated: " (String c l)) eqn:E2; [|done].
  apply startsWith_head in E1. apply startsWith_head in E2. congruence.
Qed.

Section Metadata.
Context `{Utils} `{Host}.

Lemma split_updateMetadata content t :
  plain (dateAtTime t) = true ->
  split_lines (updateMetadata content t) =
    rewrite_first "Last Updated: " ("Last Updated: " +:+ dateAtTime t)
      (rewrite_first "update_time: " ("update_time: " +:+ dateAtTime t)
         (split_lines content)).
Proof.
  intros Hp. unfold updateMetadata.
  rewrite split_replace_line; [|done|done|by unfold plain; rewrite noneOf_app; apply andb_true_iff].
  rewrite split_replace_line; [|done|done|by unfold plain; rewrite noneOf_app; apply andb_true_iff].
  done.
Qed.

(** C10.  With a timestamp rendering that stays on one line and holds no
    [$], [updateMetadata] keeps the number of lines and every line
    terminator; a line whose text it changes is the first line that starts
    with [update_time: ] or the first that starts with [Last Updated: ],
    and becomes that key followed by the timestamp; every other line is
    kept as it is; and rewriting a second time with the same timestamp
    changes nothing more. *)
Theorem updateMetadata_frame_idempotent (content : string) (t : Z) :
  plain (dateAtTime t) = true ->
  let stamp := dateAtTime t in
  let before := split_lines content in
  let after := split_lines (updateMetadata content t) in
  join_lines before = content
  /\ join_lines after = updateMetadata content t
  /\ length after = length before
  /\ (forall i l l',
        before !! i = Some l -> after !! i = Some l' ->
        snd l' = snd l /\
        (l' <> l ->
         (first_line_with "update_time: " before = Some i
          /\ fst l' = "update_time: " +:+ stamp)
         \/ (first_line_with "Last Updated: " before = Some i
             /\ fst l' = "Last Updated: " +:+ stamp)))
  /\ updateMetadata (updateMetadata content t) t = updateMetadata content t.
Proof.
  intros Hp stamp before after.
  assert (after = rewrite_first "Last Updated: " ("Last Updated: " +:+ stamp)
                    (rewrite_first "update_time: " ("update_time: " +:+ stamp)
                       before)) as Hafter by by apply split_updateMetadata.
  split; [apply join_split_lines|]. split; [apply join_split_lines|].
  split; [by rewrite Hafter, !rewrite_first_length|]. split.
  - intros i l l' Hl Hl'. rewrite Hafter in Hl'.
    set (mid := rewrite_first "update_time: " ("update_time: " +:+ stamp) before) in *.
    assert (is_Some (mid !! i)) as [m Hmid].
    { apply lookup_lt_is_Some. unfold mid. rewrite rewrite_first_length.
      by apply lookup_lt_Some in Hl. }
    destruct (rewrite_first_lookup _ _ _ _ _ _ Hl Hmid) as [Hs1 Hc1].
    destruct (rewrite_first_lookup _ _ _ _ _ _ Hmid Hl') as [Hs2 Hc2].
    split; [congruence|]. intros Hne.
    destruct (decide (l' = m)) as [->|Hne2].
    + left. by apply Hc1.
    + right. destruct (Hc2 Hne2) as [Hf ->]. split; [|done].
      rewrite <- Hf. unfold mid. symmetry.
      apply first_line_with_rewrite_other; [apply keys_apart | apply startsWith_app].
  - apply split_lines_inj. rewrite (split_updateMetadata _ _ Hp).
    rewrite (split_updateMetadata _ _ Hp).
    apply rewrite_twice_idem;
      [apply keys_apart | apply startsWith_app | apply startsWith_app].
Qed.

End Metadata.

(* ================================================================= *)
(** ** The marker scanner over rendered notes *)

Lemma lazy_until_unfold close s :
  lazy_until close s =
    match strip_prefix close s with
    | Some rest => Some (EmptyString, rest)
    | None =>
        match s with
        | EmptyString => None
        | String c s' =>
            if isLineTerminator c then None
            else match lazy_until close s' with
                 | Some (u, rest) => Some (String c u, rest)
                 | None => None
                 end
        end
    end.
Proof. by destruct s. Qed.

Lemma lazy_until_Some close s u rest :
  lazy_until close s = Some (u, rest) -> s = u +:+ close +:+ rest.
Proof.
  revert u rest. induction s as [|c s IH]; intros u rest; rewrite lazy_until_unfold.
  - destruct (strip_prefix close EmptyString) eqn:E; [|done].
    intros [= <- <-]. by apply strip_prefix_Some in E.
  - destruct (strip_prefix close (String c s)) eqn:E.
    + intros [= <- <-]. by apply strip_prefix_Some in E.
    + destruct (isLineTerminator c); [done|].
      destruct (lazy_until close s) as [[u' rest']|] eqn:L; [|done].
      intros [= <- <-]. rewrite app_cons. f_equal. by apply IH.
Qed.

(** More fuel than the length of the text changes nothing. *)
Lemma exec_all_fuel fuel : forall s fuel',
  (String.length s <= fuel)%nat -> (String.length s <= fuel')%nat ->
  exec_all fuel s = exec_all fuel' s.
Proof.
  induction fuel as [|fuel IH]; intros s fuel' H1 H2.
  - destruct s; [|simpl in H1; lia]. by destruct fuel'.
  - destruct fuel' as [|fuel'].
    { destruct s; [done | simpl in H2; lia]. }
    destruct s as [|c s]; [done|]. simpl in H1, H2.
    unfold exec_all; fold exec_all.
    destruct (strip_prefix UID_OPEN (String c s)) as [r|] eqn:E; [|apply IH; lia].
    destruct (lazy_until UID_CLOSE r) as [[uid rest]|] eqn:L; [|apply IH; lia].
    f_equal. apply strip_prefix_Some in E. apply lazy_until_Some in L.
    assert (String.length (String c s) = String.length (UID_OPEN +:+ uid +:+ UID_CLOSE +:+ rest))
      as Hlen by (by rewrite E, L).
    rewrite !app_length in Hlen. simpl in Hlen. apply IH; lia.
Qed.

Lemma scan_cons_skip c s :
  strip_prefix UID_OPEN (String c s) = None ->
  extractMessageUIDsFromNote (String c s) = extractMessageUIDsFromNote s.
Proof.
  intros E. unfold extractMessageUIDsFromNote.
  change (String.length (String c s)) with (S (String.length s)).
  unfold exec_all at 1; fold exec_all. by rewrite E.
Qed.

(** A pattern cannot start inside [t] and end beyond it when the code unit
    that follows [t] does not occur in the pattern. *)
Lemma strip_prefix_no_straddle c x p : forall t r,
  noneOf (Ascii.eqb c) p = true ->
  strip_prefix p (t +:+ String c x) = Some r ->
  exists r', strip_prefix p t = Some r'.
Proof.
  induction p as [|a p IH]; intros t r Hp; [by eauto|].
  simpl in Hp. apply andb_true_iff in Hp as [Ha Hp].
  destruct t as [|b t].
  - rewrite app_nil_l. simpl. rewrite Ascii.eqb_sym.
    apply negb_true_iff in Ha. by rewrite Ha.
  - rewrite app_cons. simpl. destruct (Ascii.eqb a b); [|done]. by apply IH.
Qed.

Lemma strip_prefix_inside a p c x b t r :
  noneOf (Ascii.eqb c) p = true ->
  strip_prefix (String a p) (String b t +:+ String c x) = Some r ->
  startsWith (String a p) (String b t) = true.
Proof.
  intros Hp. rewrite app_cons. unfold startsWith. simpl.
  destruct (Ascii.eqb a b); [|done]. intros E.
  by destruct (strip_prefix_no_straddle _ _ _ _ _ Hp E) as [r' ->].
Qed.

Lemma occurs_cons p c s :
  occurs p (String c s) = false ->
  startsWith p (String c s) = false /\ occurs p s = false.
Proof. simpl. by intros ?%orb_false_iff. Qed.

Lemma scan_skip_free t x :
  markerFree t = true -> safeStart x ->
  extractMessageUIDsFromNote (t +:+ x) = extractMessageUIDsFromNote x.
Proof.
  unfold markerFree. intros Ht%negb_true_iff Hx.
  induction t as [|b t IH]; [done|].
  apply occurs_cons in Ht as [Hb Ht].
  rewrite app_cons, scan_cons_skip; [by apply IH|].
  rewrite <- app_cons.
  destruct (strip_prefix UID_OPEN (String b t +:+ x)) as [r|] eqn:E; [|done].
  destruct x as [|c x].
  - rewrite app_nil_r in E. unfold startsWith in Hb. by rewrite E in Hb.
  - apply strip_prefix_inside in E; [|done].
    destruct (eq_true_false_abs _ E Hb).
Qed.

Lemma scan_skip_units t x :
  noneOf (Ascii.eqb "<") t = true ->
  extractMessageUIDsFromNote (t +:+ x) = extractMessageUIDsFromNote x.
Proof.
  induction t as [|b t IH]; [done|]. simpl.
  intros [Hb Ht]%andb_true_iff. rewrite app_cons, scan_cons_skip; [by apply IH|].
  simpl. apply negb_true_iff in Hb. by rewrite Hb.
Qed.

Lemma lazy_until_close u y :
  noneOf isLineTerminator u = true -> occurs UID_CLOSE u = false ->
  lazy_until UID_CLOSE (u +:+ UID_CLOSE +:+ y) = Some (u, y).
Proof.
  induction u as [|c u IH]; intros Hl Ho; rewrite lazy_until_unfold.
  - by rewrite app_nil_l, strip_prefix_app.
  - apply occurs_cons in Ho as [Hc Ho]. simpl in Hl.
    apply andb_true_iff in Hl as [Hlc Hl]. apply negb_true_iff in Hlc.
    destruct (strip_prefix UID_CLOSE (String c u +:+ UID_CLOSE +:+ y)) as [r|] eqn:E.
    + change (UID_CLOSE +:+ y) with (String " "%char ("-->" +:+ y)) in E.
      apply strip_prefix_inside in E; [|done].
      destruct (eq_true_false_abs _ E Hc).
    + rewrite app_cons, Hlc, IH by done. done.
Qed.

Lemma scan_marker u y :
  noneOf isLineTerminator u = true -> occurs UID_CLOSE u = false ->
  extractMessageUIDsFromNote (UID_OPEN +:+ u +:+ UID_CLOSE +:+ y) =
    u :: extractMessageUIDsFromNote y.
Proof.
  intros Hl Ho. unfold extractMessageUIDsFromNote.
  pose proof (strip_prefix_app UID_OPEN (u +:+ UID_CLOSE +:+ y)) as E.
  remember (UID_OPEN +:+ u +:+ UID_CLOSE +:+ y) as s eqn:Hs.
  assert (String.length y < String.length s)%nat as Hlen.
  { rewrite Hs, !app_length. simpl. lia. }
  destruct s as [|c s]; [simpl in Hlen; lia|].
  change (String.length (String c s)) with (S (String.length s)).
  unfold exec_all at 1; fold exec_all.
  rewrite E, lazy_until_close by done. f_equal.
  apply exec_all_fuel; simpl in Hlen; lia.
Qed.

Lemma fold_left_append l : forall a,
  fold_left (fun acc b => acc +:+ b) l a = a +:+ foldr String.append EmptyString l.
Proof.
  induction l as [|b l IH]; intros a; simpl.
  - by rewrite app_nil_r.
  - by rewrite IH, app_assoc.
Qed.

Lemma str_or_nonempty x d : String.eqb x EmptyString = false -> str_or x d = x.
Proof. by destruct x. Qed.

Section RoundTrip.
Context `{Utils} `{Host}.

Lemma messageBlocks_valid chat :
  messageBlocks chat = map (fun m => formatMessage (Some m)) (validMessages chat).
Proof.
  unfold messageBlocks, validMessages.
  induction (mapping chat) as [|[k n] l IH]; [done|]. simpl.
  destruct (message n) as [m|] eqn:E; [|done].
  destruct (isValidMessage (Some m)); simpl; by rewrite ?E, IH.
Qed.

Lemma messageTail_units m : noneOf (Ascii.eqb "<") (messageTail m) = true.
Proof. unfold messageTail. by destruct (String.eqb (authorName m) "ChatGPT"). Qed.

Lemma messageBody_starts m x : safeStart (messageBody m +:+ x).
Proof.
  unfold messageBody, messageHeading, headingLevel.
  by destruct (String.eqb (authorName m) "User").
Qed.

Lemma blocks_start ms :
  safeStart (foldr String.append EmptyString
               (map (fun m => formatMessage (Some m)) ms)).
Proof.
  destruct ms as [|m ms]; [done|]. cbn [map foldr]. unfold formatMessage.
  rewrite !app_assoc. apply messageBody_starts.
Qed.

(** One rendered block gives back its id and nothing else. *)
Lemma scan_block m rest :
  markerFree (messageBody m) = true -> roundTrips (msg_id m) = true ->
  extractMessageUIDsFromNote (formatMessage (Some m) +:+ rest) =
    msg_id m :: extractMessageUIDsFromNote rest.
Proof.
  intros Hb Hi. unfold roundTrips in Hi.
  apply andb_true_iff in Hi as [[Hne Hl]%andb_true_iff Ho].
  apply negb_true_iff in Hne, Ho.
  unfold formatMessage, markerLine. rewrite (str_or_nonempty _ _ Hne), !app_assoc.
  rewrite scan_skip_free; [|done|done].
  rewrite (scan_skip_units nl) by done.
  rewrite scan_marker by done. f_equal.
  rewrite (scan_skip_units nl) by done.
  by rewrite scan_skip_units by apply messageTail_units.
Qed.

Lemma scan_blocks ms :
  forallb (fun m => markerFree (messageBody m) && roundTrips (msg_id m)) ms = true ->
  extractMessageUIDsFromNote
    (foldr String.append EmptyString (map (fun m => formatMessage (Some m)) ms))
  = map msg_id ms.
Proof.
  induction ms as [|m ms IH]; [done|]. cbn [forallb map foldr].
  intros [[Hb Hi]%andb_true_iff Hms]%andb_true_iff.
  by rewrite scan_block, IH.
Qed.

(** C6, amended.  When no marker opens in the rendered header nor in the
    heading and quoted text of any valid message, and the id of every
    valid message is not empty, stays on one line and does not hold the
    closing of a marker, scanning the rendered note yields the ids of the
    valid messages, one for each and in their order. *)
Theorem render_scan_round_trip (chat : Chat) :
  markerFree (generateHeader (formatTitle (title chat)) (id chat)
                (dateAtTime (create_time chat)) (dateAtTime (update_time chat)))
    = true ->
  forallb (fun m => markerFree (messageBody m) && roundTrips (msg_id m))
    (validMessages chat) = true ->
  extractMessageUIDsFromNote (generateMarkdownContent chat)
    = map msg_id (validMessages chat).
Proof.
  intros Hh Hms. unfold generateMarkdownContent, generateMessagesContent.
  rewrite fold_left_append, app_nil_l, messageBlocks_valid.
  rewrite scan_skip_free; [by apply scan_blocks | done | apply blocks_start].
Qed.

End RoundTrip.

(* ================================================================= *)
(** ** Rendering of messages *)

Section Rendering.
Context `{Utils} `{Host}.

Lemma validMessages_length chat :
  (length (validMessages chat) <= length (mapping chat))%nat.
Proof.
  unfold validMessages. induction (mapping chat) as [|[k n] l IH]; [done|].
  unfold omap in *. simpl in *. destruct (message n) as [m|]; [|lia].
  destruct (isValidMessage (Some m)); simpl; lia.
Qed.

(** C8, amended.  [formatMessage] renders a message that has no content,
    no array of parts or no text in its parts as its heading, a
    placeholder and its marker line; [generateMessagesContent] renders the
    nodes that carry a message [isValidMessage] accepts and leaves the
    other nodes out, so the number of rendered blocks is the number of
    valid messages, which is at most the number of nodes. *)
Theorem placeholder_and_block_count (chat : Chat) :
  (forall m ph, placeholder m = Some ph ->
     formatMessage (Some m) =
       (messageHeading m +:+ quoteChar m +:+ " " +:+ ph)
         +:+ markerLine m +:+ messageTail m)
  /\ messageBlocks chat = map (fun m => formatMessage (Some m)) (validMessages chat)
  /\ length (messageBlocks chat) = length (validMessages chat)
  /\ (length (messageBlocks chat) <= length (mapping chat))%nat.
Proof.
  split; [|split; [apply messageBlocks_valid|split]].
  - intros m ph Hph. unfold formatMessage, messageBody. f_equal. f_equal.
    unfold placeholder in Hph. unfold messageQuote.
    destruct (content m) as [c|]; [|by injection Hph as <-].
    destruct (parts c) as [ps|]; [|by injection Hph as <-].
    destruct (messageText ps); [by injection Hph as <- | done].
  - by rewrite messageBlocks_valid, length_map.
  - rewrite messageBlocks_valid, length_map. apply validMessages_length.
Qed.

(** C9, amended.  A message whose author carries a role other than
    ["user"] is rendered, and is rendered as a message of the assistant:
    label [ChatGPT], heading level four, double quote mark.  The label
    [Unknown] is not used for it. *)
Theorem role_other_than_user_is_assistant (m : ChatMessage) (r : string) :
  author m = Some {| role := Some r |} -> r <> "user" ->
  authorName m = "ChatGPT"
  /\ authorName m <> "Unknown"
  /\ headingLevel m = "####"
  /\ quoteChar m = ">>"
  /\ exists rest, formatMessage (Some m) = "#### ChatGPT, on " +:+ rest.
Proof.
  intros Ha Hr.
  assert (authorName m = "ChatGPT") as E.
  { unfold authorName. rewrite Ha. simpl.
    destruct (String.eqb_spec r "user"); [done | done]. }
  unfold headingLevel, quoteChar, formatMessage, messageBody, messageHeading,
    headingLevel. rewrite !E. simpl.
  repeat split; [done|]. rewrite !app_assoc. by eexists.
Qed.

End Rendering.

(* ================================================================= *)
(** ** The engine: what a method does to the plugin *)

(** Unfolds the monad and the field updates of a method body. *)
Ltac run :=
  unfold mbind, M_bind, mret, M_ret, modify, get, throw, rethrow, try_catch,
    logErrorInReport, logger_error in *;
  unfold with_catalog, with_report, with_counters, with_messageCounters,
    with_vault, with_writes, with_console in *;
  simpl in *.

Section EngineFacts.
Context `{Utils} `{Host}.

Lemma writeToFile_frame f c p o p' :
  writeToFile f c p = (o, p') ->
  importReport p' = importReport p
  /\ conversationCatalog p' = conversationCatalog p
  /\ settings p' = settings p.
Proof.
  unfold writeToFile, vault_store. run.
  destruct (vault p !! f) as [[?|]|]; run;
    destruct (vault_refuses f c); run; by intros [= <- <-].
Qed.

Lemma generateFilePath_frame t ct pf ap p o p' :
  generateFilePath t ct pf ap p = (o, p') ->
  importReport p' = importReport p
  /\ conversationCatalog p' = conversationCatalog p
  /\ settings p' = settings p.
Proof.
  unfold generateFilePath. run.
  destruct (ensureFolderExists _ (vault p)) as [fr v']. run.
  destruct (success fr); run; [|by intros [= <- <-]].
  destruct (doesFilePathExist _ v'); by intros [= <- <-].
Qed.

Lemma createNewNote_spec chat fp p :
  match createNewNote chat fp p with
  | (Returned _, p') =>
      importReport p' =
        addCreated (str_or (title chat) "Untitled") fp
          (dateTime (create_time chat)) (dateTime (update_time chat))
          (validMessageCount chat) (importReport p)
  | (Thrown e, p') =>
      importReport p' =
        addFailed (str_or (title chat) "Untitled") fp
          (dateTime (create_time chat)) (dateTime (update_time chat))
          (err_message e) (importReport p)
      /\ conversationCatalog p' = conversationCatalog p
  end.
Proof.
  unfold createNewNote. run.
  destruct (writeToFile fp (generateMarkdownContent chat) p) as [[[]|e] p1] eqn:W;
    apply writeToFile_frame in W as (-> & -> & _); by run.
Qed.

(** [updateExistingNote] and [handleExistingChat] never throw and never
    touch the catalog, the failures or the global errors. *)
Lemma updateExistingNote_spec chat fp n p :
  exists p', updateExistingNote chat fp n p = (Returned tt, p')
    /\ conversationCatalog p' = conversationCatalog p
    /\ created (importReport p') = created (importReport p)
    /\ failed (importReport p') = failed (importReport p)
    /\ globalErrors (importReport p') = globalErrors (importReport p).
Proof.
  unfold updateExistingNote. run.
  destruct fp as [fp|]; [|by eexists].
  destruct (vault p !! fp) as [[original|]|]; [|by eexists..].
  set (content := updateMetadata original (update_time chat)).
  set (new := getNewMessages chat (extractMessageUIDsFromNote content)).
  destruct (0 <? length new)%nat; run.
  - destruct (negb (String.eqb _ original)); [|by eexists].
    match goal with |- context [writeToFile ?f ?c ?q] =>
      destruct (writeToFile f c q) as [[[]|e] p1] eqn:W;
      apply writeToFile_frame in W as (W1 & W2 & _)
    end; run; eexists; (split; [done|]); by rewrite ?W1, ?W2.
  - destruct (negb (String.eqb _ original)); [|by eexists].
    match goal with |- context [writeToFile ?f ?c ?q] =>
      destruct (writeToFile f c q) as [[[]|e] p1] eqn:W;
      apply writeToFile_frame in W as (W1 & W2 & _)
    end; run; eexists; (split; [done|]); by rewrite ?W1, ?W2.
Qed.

Lemma handleExistingChat_spec chat r p :
  exists p', handleExistingChat chat r p = (Returned tt, p')
    /\ conversationCatalog p' = conversationCatalog p
    /\ created (importReport p') = created (importReport p)
    /\ failed (importReport p') = failed (importReport p)
    /\ globalErrors (importReport p') = globalErrors (importReport p).
Proof.
  assert (forall fp q,
            conversationCatalog q = conversationCatalog p ->
            importReport q = importReport p ->
            exists p', updateExistingNote chat fp (validMessageCount chat) q
                       = (Returned tt, p')
              /\ conversationCatalog p' = conversationCatalog p
              /\ created (importReport p') = created (importReport p)
              /\ failed (importReport p') = failed (importReport p)
              /\ globalErrors (importReport p') = globalErrors (importReport p))
    as Hupd.
  { intros fp q <- <-. apply updateExistingNote_spec. }
  unfold handleExistingChat. destruct r as [fp|e]; run.
  - by apply Hupd.
  - destruct (updateTime e >=? update_time chat); run; [by eexists|].
    by apply Hupd.
Qed.

Lemma processSingleChat_returns chat p :
  exists p', processSingleChat chat p = (Returned tt, p').
Proof.
  unfold processSingleChat. run.
  destruct (processSingleChat_try chat p) as [[[]|e] p1]; by eexists.
Qed.



(** How the [try] block of [processSingleChat] can throw: only for a
    conversation that is not in the catalog, from [generateFilePath] or
    from [createNewNote]. *)
Lemma processSingleChat_try_thrown chat p e q :
  processSingleChat_try chat p = (Thrown e, q) ->
  existing p chat = None
  /\ conversationCatalog q = conversationCatalog p
  /\ match generateFilePath (title chat) (create_time chat)
            (dateFormat (settings p)) (archiveFolder (settings p)) p with
     | (Returned fp, _) =>
         importReport q =
           addFailed (str_or (title chat) "Untitled") fp
             (dateTime (create_time chat)) (dateTime (update_time chat))
             (err_message e) (importReport p)
     | (Thrown e', _) => e' = e /\ importReport q = importReport p
     end.
Proof.
  unfold processSingleChat_try. run.
  destruct (existing p chat) as [r|].
  { destruct (handleExistingChat_spec chat r p) as (p' & -> & _). done. }
  destruct (generateFilePath _ _ _ _ p) as [[fp|e'] p1] eqn:G;
    apply generateFilePath_frame in G as (G1 & G2 & _).
  - unfold handleNewChat, updateConversationCatalogEntry. run.
    match goal with |- context [createNewNote chat fp ?q'] =>
      pose proof (createNewNote_spec chat fp q') as C;
      destruct (createNewNote chat fp q') as [[[]|e2] p2]
    end; [done|]. run. destruct C as [C1 C2].
    intros [= <- <-]. by rewrite C1, C2, G1, G2.
  - intros [= <- <-]. by rewrite G1, G2.
Qed.


(** C4.  A conversation whose catalog entry is as recent as the
    conversation itself is reconciled without any call of [vault.modify]
    or [vault.create]: the vault and the catalog stay as they are, and the
    report gains one skipped entry, with the reason [No Updates], and
    nothing else. *)
Theorem up_to_date_conversation_is_skipped
    (chat : Chat) (e : ConversationCatalogEntry) (p : Plugin) :
  conversationCatalog p !! id chat = Some (CVEntry e) ->
  update_time chat <= updateTime e ->
  let p' := exec (processSingleChat chat) p in
  writes p' = writes p
  /\ vault p' = vault p
  /\ conversationCatalog p' = conversationCatalog p
  /\ skipped (importReport p') =
       skipped (importReport p) ++
         [entryOf chat (path e)
            (formatTimestamp (create_time chat) "date")
            (formatTimestamp (update_time chat) "date")
            (Some (validMessageCount chat)) (Some "No Updates") None]
  /\ created (importReport p') = created (importReport p)
  /\ updated (importReport p') = updated (importReport p)
  /\ failed (importReport p') = failed (importReport p)
  /\ globalErrors (importReport p') = globalErrors (importReport p).
Proof.
  intros Hcat Hle p'. unfold p', exec, processSingleChat, processSingleChat_try.
  run. unfold existing. rewrite Hcat. unfold handleExistingChat.
  assert ((updateTime e >=? update_time chat) = true) as ->
    by (apply Z.geb_le; lia).
  by run.
Qed.

(** Reconciling a conversation that is in the catalog leaves the catalog
    as it is, whatever the outcome. *)
Lemma existing_conversation_keeps_catalog chat r p :
  existing p chat = Some r ->
  conversationCatalog (exec (processSingleChat chat) p) = conversationCatalog p.
Proof.
  intros Hex. unfold exec, processSingleChat, processSingleChat_try. run.
  rewrite Hex. by destruct (handleExistingChat_spec chat r p) as (p' & -> & -> & _).
Qed.


End EngineFacts.

(* ================================================================= *)
(** ** The engine on concrete conversations *)

Section OnSample.
Import Sample.
#[local] Existing Instance utils.
#[local] Existing Instance host.

(** C1.  [tripLater] is a newer revision of a conversation that is in the
    catalog.  Reconciling it updates the note, and the catalog entry still
    carries the older timestamp; a second reconciliation of the same
    revision therefore passes the gate again and ends in the skipped
    outcome [No changes needed], with the entry still not advanced. *)
Theorem catalog_entry_not_advanced :
  let e := {| conversationId := "c1"; path := tripPath;
              updateTime := 1700000000; provider := "chatgpt" |} in
  let p1 := exec (processSingleChat tripLater) afterTrip in
  let p2 := exec (processSingleChat tripLater) p1 in
  conversationCatalog afterTrip !! id tripLater = Some (CVEntry e)
  /\ updateTime e < update_time tripLater
  /\ length (updated (importReport p1)) = 1%nat
  /\ conversationCatalog p1 !! id tripLater = Some (CVEntry e)
  /\ map re_reason (skipped (importReport p2)) = [Some "No changes needed"]
  /\ conversationCatalog p2 !! id tripLater = Some (CVEntry e).
Proof. vm_compute. repeat split; reflexivity. Qed.

(** C2.  The note of a catalogued conversation is gone from the vault and
    a newer revision arrives: the report gains no entry of any kind, no
    global error either, nothing is logged and nothing is written; the
    conversation is only counted as processed. *)
Theorem missing_note_leaves_no_trace :
  let p := afterTripNoteGone in
  let p' := exec (processSingleChat tripLater) p in
  (exists e, conversationCatalog p !! id tripLater = Some (CVEntry e)
             /\ updateTime e < update_time tripLater
             /\ vault p !! path e = None)
  /\ importReport p' = emptyReport
  /\ failed (importReport p') = []
  /\ console p' = []
  /\ writes p' = []
  /\ totalConversationsProcessed (conversationCounters p')
     = S (totalConversationsProcessed (conversationCounters p)).
Proof.
  split; [|by vm_compute].
  exists {| conversationId := "c1"; path := tripPath;
            updateTime := 1700000000; provider := "chatgpt" |}.
  by vm_compute.
Qed.



Lemma up_to_date_conversation_is_skipped_witness :
  let e := {| conversationId := "c1"; path := tripPath;
              updateTime := 1700000000; provider := "chatgpt" |} in
  conversationCatalog afterTrip !! id trip = Some (CVEntry e)
  /\ update_time trip <= updateTime e
  /\ writes (exec (processSingleChat trip) afterTrip) = writes afterTrip.
Proof.
  intros e.
  assert (conversationCatalog afterTrip !! id trip = Some (CVEntry e)) as Hcat
    by (by vm_compute).
  assert (update_time trip <= updateTime e) as Hle by (by vm_compute).
  split; [exact Hcat|]. split; [exact Hle|].
  exact (proj1 (up_to_date_conversation_is_skipped trip e afterTrip Hcat Hle)).
Defined.


(** C6 as stated fails: the text of the only message of [quoting] holds a
    marker line, and scanning the rendered note yields two ids, one of
    which is the id of no message. *)
Lemma quoted_marker_is_scanned_as_id :
  let scanned := extractMessageUIDsFromNote (generateMarkdownContent quoting) in
  let ids := map msg_id (validMessages quoting) in
  scanned = ["x"; "m1"]
  /\ ids = ["m1"]
  /\ In "x" scanned /\ ~ In "x" ids
  /\ length scanned <> length ids.
Proof.
  vm_compute. repeat split; [by left | by intros [|[]] | done].
Qed.

Lemma render_scan_round_trip_witness :
  markerFree (generateHeader (formatTitle (title trip)) (id trip)
                (dateAtTime (create_time trip)) (dateAtTime (update_time trip)))
    = true
  /\ forallb (fun m => markerFree (messageBody m) && roundTrips (msg_id m))
       (validMessages trip) = true
  /\ extractMessageUIDsFromNote (generateMarkdownContent trip) = ["m1"; "m2"].
Proof.
  assert (markerFree (generateHeader (formatTitle (title trip)) (id trip)
                        (dateAtTime (create_time trip))
                        (dateAtTime (update_time trip))) = true) as Hh
    by (by vm_compute).
  assert (forallb (fun m => markerFree (messageBody m) && roundTrips (msg_id m))
            (validMessages trip) = true) as Hms by (by vm_compute).
  split; [exact Hh|]. split; [exact Hms|].
  exact (render_scan_round_trip trip Hh Hms).
Defined.

(** C8 as stated fails: [sparse] has three nodes, one of them a message
    without content; one block is rendered, and the message without
    content has no marker line in the note. *)
Lemma message_without_content_is_left_out :
  length (mapping sparse) = 3%nat
  /\ length (messageBlocks sparse) = 1%nat
  /\ extractMessageUIDsFromNote (generateMarkdownContent sparse) = ["m2"]
  /\ occurs "[No content]" (generateMarkdownContent sparse) = false.
Proof. by vm_compute. Qed.

Lemma placeholder_and_block_count_witness :
  let m := {| msg_id := "m1"; author := Some {| role := Some "user" |};
              msg_create_time := Some 1700000001; content := None |} in
  placeholder m = Some "[No content]"
  /\ formatMessage (Some m) =
       (messageHeading m +:+ quoteChar m +:+ " " +:+ "[No content]")
         +:+ markerLine m +:+ messageTail m.
Proof.
  intros m.
  assert (placeholder m = Some "[No content]") as Hph by reflexivity.
  split; [exact Hph|].
  exact (proj1 (placeholder_and_block_count sparse) m _ Hph).
Defined.

(** C9 as stated fails: a message of role [system] is labelled as the
    messages of the assistant are. *)
Lemma system_message_labelled_as_assistant :
  role <$> author systemMessage = Some (Some "system")
  /\ role <$> author assistantMessage = Some (Some "assistant")
  /\ authorName systemMessage = "ChatGPT"
  /\ authorName systemMessage = authorName assistantMessage.
Proof. by vm_compute. Qed.

Lemma role_other_than_user_is_assistant_witness :
  author systemMessage = Some {| role := Some "system" |}
  /\ "system" <> "user"
  /\ authorName systemMessage = "ChatGPT".
Proof.
  assert (author systemMessage = Some {| role := Some "system" |}) as Ha
    by reflexivity.
  assert ("system" <> "user") as Hr by done.
  split; [exact Ha|]. split; [exact Hr|].
  exact (proj1 (role_other_than_user_is_assistant systemMessage "system" Ha Hr)).
Defined.

(** C7.  Two exports are picked; the one written first has the name that
    sorts last.  They are handed on in the order of their names: the
    later export first, the earlier export after it. *)
Theorem name_order_is_not_export_order :
  sortedFiles [exportJanuary; exportJune] = [exportJune; exportJanuary]
  /\ lastModified exportJanuary < lastModified exportJune
  /\ chronological (sortedFiles [exportJanuary; exportJune]) = false.
Proof. by vm_compute. Qed.

Lemma updateMetadata_frame_idempotent_witness :
  let note := generateMarkdownContent trip in
  plain (dateAtTime 1700000500) = true
  /\ updateMetadata (updateMetadata note 1700000500) 1700000500
     = updateMetadata note 1700000500.
Proof.
  intros note.
  assert (plain (dateAtTime 1700000500) = true) as Hp by (by vm_compute).
  split; [exact Hp|].
  exact (proj2 (proj2 (proj2 (proj2
           (updateMetadata_frame_idempotent note 1700000500 Hp))))).
Defined.

End OnSample.

(* ================================================================= *)
(** ** The engine: creation, re-import, the catalog and the accounting *)

Ltac outcomes_done :=
  rewrite ?List.app_nil_r; simpl; repeat split; solve [done | lia].

Section Reconciliation.
Context `{Utils} `{Host}.

Lemma writeToFile_counters f c p o p' :
  writeToFile f c p = (o, p') -> conversationCounters p' = conversationCounters p.
Proof.
  unfold writeToFile, vault_store. run.
  destruct (vault p !! f) as [[?|]|]; run;
    destruct (vault_refuses f c); run; by intros [= <- <-].
Qed.

(** [generateFilePath] changes the vault and nothing else. *)
Lemma generateFilePath_state t ct pf ap p o p' :
  generateFilePath t ct pf ap p = (o, p') ->
  exists v', p' = with_vault (fun _ => v') p.
Proof.
  unfold generateFilePath. run.
  destruct (ensureFolderExists _ (vault p)) as [fr v']. run.
  destruct (success fr); run; [|intros [= <- <-]; by exists v'].
  destruct (doesFilePathExist _ v'); intros [= <- <-]; by exists v'.
Qed.


Lemma createNewNote_returned chat fp p p' :
  createNewNote chat fp p = (Returned tt, p') ->
  conversationCatalog p' = <[id chat := CVPath fp]> (conversationCatalog p)
  /\ processed p' = processed p.
Proof.
  unfold createNewNote, processed. run.
  destruct (writeToFile fp (generateMarkdownContent chat) p) as [[[]|e] p1] eqn:W;
    [|done].
  pose proof (writeToFile_counters _ _ _ _ _ W) as Wc.
  apply writeToFile_frame in W as (_ & Wcat & _). run.
  intros [= <-]. run. by rewrite Wcat, Wc.
Qed.

Lemma createNewNote_thrown_processed chat fp p e p' :
  createNewNote chat fp p = (Thrown e, p') -> processed p' = processed p.
Proof.
  unfold createNewNote, processed. run.
  destruct (writeToFile fp (generateMarkdownContent chat) p) as [[[]|e'] p1] eqn:W;
    [done|].
  apply writeToFile_counters in W. run. intros [= <- <-]. run. by rewrite W.
Qed.

(** What [updateExistingNote] adds to the report: at most one entry, an
    updated one or a skipped one. *)
Lemma updateExistingNote_outcomes chat fp n p o p' :
  updateExistingNote chat fp n p = (o, p') ->
  processed p' = processed p
  /\ exists lu ls,
       updated (importReport p') = updated (importReport p) ++ lu
       /\ skipped (importReport p') = skipped (importReport p) ++ ls
       /\ (length lu + length ls <= 1)%nat.
Proof.
  unfold updateExistingNote, processed. run.
  destruct fp as [fp|];
    [|intros [= <- <-]; split; [done|]; exists [], []; outcomes_done].
  destruct (vault p !! fp) as [[original|]|];
    [|intros [= <- <-]; split; [done|]; exists [], []; outcomes_done..].
  set (content := updateMetadata original (update_time chat)).
  set (new := getNewMessages chat (extractMessageUIDsFromNote content)).
  destruct (0 <? length new)%nat; run.
  - destruct (negb (String.eqb _ original)).
    + match goal with |- context [writeToFile ?f ?c ?q] =>
        destruct (writeToFile f c q) as [[[]|e] p1] eqn:W;
        pose proof (writeToFile_counters _ _ _ _ _ W) as Wc;
        apply writeToFile_frame in W as (W1 & _ & _)
      end; run; intros [= <- <-]; run; rewrite ?W1, ?Wc; run; (split; [done|]).
      * eexists [_], []. outcomes_done.
      * exists [], []. outcomes_done.
    + run. intros [= <- <-]. run. split; [done|]. eexists [], [_]. outcomes_done.
  - destruct (negb (String.eqb _ original)).
    + match goal with |- context [writeToFile ?f ?c ?q] =>
        destruct (writeToFile f c q) as [[[]|e] p1] eqn:W;
        pose proof (writeToFile_counters _ _ _ _ _ W) as Wc;
        apply writeToFile_frame in W as (W1 & _ & _)
      end; run; intros [= <- <-]; run; rewrite ?W1, ?Wc; run; (split; [done|]).
      * eexists [_], []. outcomes_done.
      * exists [], []. outcomes_done.
    + run. intros [= <- <-]. run. split; [done|]. eexists [], [_]. outcomes_done.
Qed.

Lemma handleExistingChat_outcomes chat r p o p' :
  handleExistingChat chat r p = (o, p') ->
  processed p' = processed p
  /\ exists lu ls,
       updated (importReport p') = updated (importReport p) ++ lu
       /\ skipped (importReport p') = skipped (importReport p) ++ ls
       /\ (length lu + length ls <= 1)%nat.
Proof.
  unfold handleExistingChat. destruct r as [fp|e]; run.
  - intros Hu. by apply updateExistingNote_outcomes in Hu.
  - destruct (updateTime e >=? update_time chat); run.
    + intros [= <- <-]. split; [done|]. eexists [], [_]. outcomes_done.
    + intros Hu. by apply updateExistingNote_outcomes in Hu.
Qed.

(** The [try] block of [processSingleChat] when it returns. *)
Lemma processSingleChat_try_returned chat p q :
  processSingleChat_try chat p = (Returned tt, q) ->
  processed q = S (processed p)
  /\ failed (importReport q) = failed (importReport p)
  /\ globalErrors (importReport q) = globalErrors (importReport p)
  /\ (exists lc lu ls,
        created (importReport q) = created (importReport p) ++ lc
        /\ updated (importReport q) = updated (importReport p) ++ lu
        /\ skipped (importReport q) = skipped (importReport p) ++ ls
        /\ (length lc + length lu + length ls <= 1)%nat)
  /\ match existing p chat with
     | Some _ => conversationCatalog q = conversationCatalog p
     | None =>
         exists fp, conversationCatalog q
                    = <[id chat := entryFor chat fp]> (conversationCatalog p)
     end.
Proof.
  unfold processSingleChat_try. run.
  destruct (existing p chat) as [r|].
  - destruct (handleExistingChat chat r p) as [[[]|e] p1] eqn:Hh; [|done].
    destruct (handleExistingChat_spec chat r p) as (p1' & Hs & Hcat & Hc & Hf & Hg).
    rewrite Hh in Hs. injection Hs as <-.
    apply handleExistingChat_outcomes in Hh as (Hp & lu & ls & Hu & Hsk & Hl).
    intros [= <-]. unfold processed in *. run.
    repeat split; [by rewrite Hp|done|done| |done].
    exists [], lu, ls. rewrite List.app_nil_r. by repeat split.
  - destruct (generateFilePath _ _ _ _ p) as [[fp|e'] p1] eqn:G; [|done].
    apply generateFilePath_state in G as [v' ->].
    unfold handleNewChat, updateConversationCatalogEntry. run.
    match goal with |- context [createNewNote chat fp ?q'] =>
      pose proof (createNewNote_spec chat fp q') as C;
      pose proof (createNewNote_returned chat fp q') as C';
      destruct (createNewNote chat fp q') as [[[]|e2] p2]
    end; [|done].
    destruct (C' _ eq_refl) as [Ccat Cp]. unfold processed in *. run.
    intros [= <-]. run. rewrite C, Ccat, Cp. run.
    repeat split; [|exists fp; by rewrite insert_insert_eq].
    eexists [_], [], []. rewrite !List.app_nil_r. by repeat split.
Qed.

Lemma processSingleChat_try_thrown_processed chat p e q :
  processSingleChat_try chat p = (Thrown e, q) -> processed q = processed p.
Proof.
  unfold processSingleChat_try. run.
  destruct (existing p chat) as [r|].
  { destruct (handleExistingChat_spec chat r p) as (p' & -> & _). done. }
  destruct (generateFilePath _ _ _ _ p) as [[fp|e'] p1] eqn:G;
    apply generateFilePath_state in G as [v' ->].
  - unfold handleNewChat, updateConversationCatalogEntry. run.
    match goal with |- context [createNewNote chat fp ?q'] =>
      pose proof (createNewNote_thrown_processed chat fp q') as C;
      destruct (createNewNote chat fp q') as [[[]|e2] p2]
    end; [done|]. intros [= <- <-]. by rewrite (C _ _ eq_refl).
  - by intros [= <- <-].
Qed.

(** One conversation: what it adds to each category of the report and to
    the count of processed conversations. *)
Lemma processSingleChat_step chat p :
  let p' := exec (processSingleChat chat) p in
  exists lc lu ls lf lg,
    created (importReport p') = created (importReport p) ++ lc
    /\ updated (importReport p') = updated (importReport p) ++ lu
    /\ skipped (importReport p') = skipped (importReport p) ++ ls
    /\ failed (importReport p') = failed (importReport p) ++ lf
    /\ globalErrors (importReport p') = globalErrors (importReport p) ++ lg
    /\ (length lf <= length lg)%nat
    /\ (length lc + length lu + length ls + length lg <= 1)%nat
    /\ (processed p' + length lg = S (processed p))%nat
    /\ threw (processSingleChat_try chat) p = (0 <? length lg)%nat.
Proof.
  unfold exec, processSingleChat, threw. run.
  destruct (processSingleChat_try chat p) as [[[]|e] q] eqn:T; run.
  - apply processSingleChat_try_returned in T
      as (Hp & Hf & Hg & (lc & lu & ls & Hc & Hu & Hs & Hl) & _).
    exists lc, lu, ls, [], []. rewrite !List.app_nil_r. simpl.
    repeat split; try done; lia.
  - pose proof (processSingleChat_try_thrown_processed _ _ _ _ T) as Hp.
    apply processSingleChat_try_thrown in T as (_ & _ & Hrep).
    unfold processed in *. run.
    destruct (generateFilePath _ _ _ _ p) as [[fp|e'] p1].
    + rewrite Hrep. run. eexists [], [], [], [_], [_].
      rewrite !List.app_nil_r. simpl. repeat split; try done; lia.
    + destruct Hrep as [_ ->]. eexists [], [], [], [], [_].
      rewrite !List.app_nil_r. simpl. repeat split; try done; lia.
Qed.

(** A batch: the same, summed up. *)
Lemma processChats_steps chats : forall p,
  let p' := exec (processChats chats) p in
  exists lc lu ls lf lg,
    created (importReport p') = created (importReport p) ++ lc
    /\ updated (importReport p') = updated (importReport p) ++ lu
    /\ skipped (importReport p') = skipped (importReport p) ++ ls
    /\ failed (importReport p') = failed (importReport p) ++ lf
    /\ globalErrors (importReport p') = globalErrors (importReport p) ++ lg
    /\ (length lf <= length lg)%nat
    /\ (length lc + length lu + length ls + length lg <= length chats)%nat
    /\ (processed p' + length lg = processed p + length chats)%nat.
Proof.
  induction chats as [|c chats IH]; intros p.
  - exists [], [], [], [], []. rewrite !List.app_nil_r. simpl.
    repeat split; try done; unfold exec; simpl; lia.
  - assert (exec (processChats (c :: chats)) p
            = exec (processChats chats) (exec (processSingleChat c) p)) as ->.
    { unfold exec. simpl. run.
      by destruct (processSingleChat_returns c p) as [p1 ->]. }
    destruct (processSingleChat_step c p)
      as (lc & lu & ls & lf & lg & Hc & Hu & Hs & Hf & Hg & H1 & H2 & H3 & _).
    destruct (IH (exec (processSingleChat c) p))
      as (lc' & lu' & ls' & lf' & lg' & Hc' & Hu' & Hs' & Hf' & Hg' & H1' & H2' & H3').
    exists (lc ++ lc'), (lu ++ lu'), (ls ++ ls'), (lf ++ lf'), (lg ++ lg').
    rewrite Hc', Hu', Hs', Hf', Hg', Hc, Hu, Hs, Hf, Hg, <- !List.app_assoc.
    rewrite !length_app. simpl. repeat split; try done; lia.
Qed.

Lemma catalogOk_spec (cat : gmap string CatalogValue) :
  catalogOk cat = true <->
  forall k v, cat !! k = Some v -> exists e, v = CVEntry e /\ conversationId e = k.
Proof.
  unfold catalogOk. rewrite forallb_forall. split.
  - intros Hall k v Hkv.
    assert (slotOk (k, v) = true) as Hok.
    { apply Hall, list_elem_of_In. by apply elem_of_map_to_list. }
    unfold slotOk in Hok. simpl in Hok. destruct v as [?|e]; [done|].
    exists e. split; [done|]. by apply String.eqb_eq.
  - intros Hall [k v] Hin%list_elem_of_In%elem_of_map_to_list.
    destruct (Hall _ _ Hin) as (e & -> & <-). unfold slotOk. simpl.
    apply String.eqb_refl.
Qed.

(** The catalog after one conversation: as before, or with the entry of a
    conversation that was not in it. *)
Lemma processSingleChat_catalog chat p :
  let p' := exec (processSingleChat chat) p in
  conversationCatalog p' = conversationCatalog p
  \/ (existing p chat = None
      /\ exists fp, conversationCatalog p'
                    = <[id chat := entryFor chat fp]> (conversationCatalog p)).
Proof.
  unfold exec, processSingleChat. run.
  destruct (processSingleChat_try chat p) as [[[]|e] q] eqn:T; run.
  - apply processSingleChat_try_returned in T as (_ & _ & _ & _ & Hcat).
    destruct (existing p chat); [by left | by right].
  - apply processSingleChat_try_thrown in T as (_ & Hcat & _). by left.
Qed.

Lemma processChats_cons c chats p :
  exec (processChats (c :: chats)) p
  = exec (processChats chats) (exec (processSingleChat c) p).
Proof.
  unfold exec. simpl. run. by destruct (processSingleChat_returns c p) as [p1 ->].
Qed.




(** X3.  When every slot of the catalog holds an entry stored under the id
    of its conversation, this is still so after a batch: no bare path that
    [createNewNote] puts into a slot is left behind. *)
Theorem catalog_stays_well_formed (chats : list Chat) (p : Plugin) :
  catalogOk (conversationCatalog p) = true ->
  catalogOk (conversationCatalog (exec (processChats chats) p)) = true.
Proof.
  revert p. induction chats as [|c chats IH]; intros p Hok; [done|].
  rewrite processChats_cons. apply IH.
  destruct (processSingleChat_catalog c p) as [->|(_ & fp & ->)]; [done|].
  apply catalogOk_spec. intros k v.
  destruct (decide (id c = k)) as [<-|Hne].
  - rewrite lookup_insert_eq. intros [= <-]. by eexists.
  - rewrite lookup_insert_ne by done. by apply catalogOk_spec.
Qed.

(** X4.  An entry of the catalog is written once: whatever a batch
    contains, the entry of a conversation that is in the catalog keeps its
    path and its timestamp. *)
Theorem catalog_entry_is_written_once
    (chats : list Chat) (p : Plugin) (k : string) (e : ConversationCatalogEntry) :
  conversationCatalog p !! k = Some (CVEntry e) ->
  conversationCatalog (exec (processChats chats) p) !! k = Some (CVEntry e).
Proof.
  revert p. induction chats as [|c chats IH]; intros p Hk; [done|].
  rewrite processChats_cons. apply IH.
  destruct (processSingleChat_catalog c p) as [->|(Hex & fp & ->)]; [done|].
  destruct (decide (id c = k)) as [<-|Hne]; [|by rewrite lookup_insert_ne].
  unfold existing in Hex. by rewrite Hk in Hex.
Qed.

(** X5.  The accounting of a batch: every conversation is either counted
    as processed or recorded as one global error; the created, updated and
    skipped entries added are at most as many as the conversations counted
    as processed, and the failed entries added at most as many as the
    global errors added. *)
Theorem batch_accounting (chats : list Chat) (p : Plugin) :
  let p' := exec (processChats chats) p in
  (processed p' + length (globalErrors (importReport p'))
   = processed p + length (globalErrors (importReport p)) + length chats)%nat
  /\ (outcomes (importReport p') + processed p
      <= outcomes (importReport p) + processed p')%nat
  /\ (length (failed (importReport p')) + length (globalErrors (importReport p))
      <= length (failed (importReport p)) + length (globalErrors (importReport p')))%nat.
Proof.
  intros p'.
  destruct (processChats_steps chats p)
    as (lc & lu & ls & lf & lg & Hc & Hu & Hs & Hf & Hg & H1 & H2 & H3).
  fold p' in Hc, Hu, Hs, Hf, Hg, H3. unfold outcomes.
  rewrite Hc, Hu, Hs, Hf, Hg, !length_app. lia.
Qed.

(** X6.  A batch only appends to the report: what each category held
    before the batch is the beginning of what it holds after it. *)
Theorem report_is_append_only (chats : list Chat) (p : Plugin) :
  let r := importReport p in
  let r' := importReport (exec (processChats chats) p) in
  created r `prefix_of` created r'
  /\ updated r `prefix_of` updated r'
  /\ skipped r `prefix_of` skipped r'
  /\ failed r `prefix_of` failed r'
  /\ globalErrors r `prefix_of` globalErrors r'.
Proof.
  intros r r'.
  destruct (processChats_steps chats p)
    as (lc & lu & ls & lf & lg & Hc & Hu & Hs & Hf & Hg & _).
  unfold r', r. rewrite Hc, Hu, Hs, Hf, Hg.
  repeat split; by eexists.
Qed.

(** X7.  For a report that had no errors before a batch, [hasErrors] is
    false after the batch exactly when every conversation of the batch was
    counted as processed. *)
Theorem no_errors_iff_all_processed (chats : list Chat) (p : Plugin) :
  hasErrors (importReport p) = false ->
  let p' := exec (processChats chats) p in
  hasErrors (importReport p') = false
  <-> processed p' = (processed p + length chats)%nat.
Proof.
  intros Hno p'.
  destruct (processChats_steps chats p)
    as (lc & lu & ls & lf & lg & _ & _ & _ & Hf & Hg & H1 & _ & H3).
  fold p' in Hf, Hg, H3. unfold hasErrors in *.
  apply orb_false_iff in Hno as [Hf0 Hg0].
  apply Nat.ltb_ge in Hf0, Hg0.
  rewrite Hf, Hg, !length_app, orb_false_iff, !Nat.ltb_ge. lia.
Qed.


End Reconciliation.

(* ================================================================= *)
(** ** More on the marker scanner *)

(** The scanner, one code unit further. *)
Lemma scan_unfold c s :
  extractMessageUIDsFromNote (String c s) =
    match strip_prefix UID_OPEN (String c s) with
    | Some r =>
        match lazy_until UID_CLOSE r with
        | Some (uid, rest) => uid :: extractMessageUIDsFromNote rest
        | None => extractMessageUIDsFromNote s
        end
    | None => extractMessageUIDsFromNote s
    end.
Proof.
  unfold extractMessageUIDsFromNote.
  change (String.length (String c s)) with (S (String.length s)).
  unfold exec_all at 1; fold exec_all.
  destruct (strip_prefix UID_OPEN (String c s)) as [r|] eqn:E; [|done].
  destruct (lazy_until UID_CLOSE r) as [[uid rest]|] eqn:L; [|done].
  f_equal. apply exec_all_fuel; [|done].
  apply strip_prefix_Some in E. apply lazy_until_Some in L.
  assert (String.length (String c s)
          = String.length (UID_OPEN +:+ uid +:+ UID_CLOSE +:+ rest)) as Hlen
    by (by rewrite E, L).
  rewrite !app_length in Hlen. simpl in Hlen. lia.
Qed.

Lemma lazy_until_rest_length close s u rest :
  lazy_until close s = Some (u, rest) ->
  (String.length rest <= String.length s)%nat.
Proof.
  intros L%lazy_until_Some. rewrite L, !app_length. lia.
Qed.

Lemma strip_prefix_rest_length p s r :
  strip_prefix p s = Some r -> (String.length r <= String.length s)%nat.
Proof.
  intros E%strip_prefix_Some. rewrite E, app_length. lia.
Qed.

Lemma strip_prefix_app_r p t r x :
  strip_prefix p t = Some r -> strip_prefix p (t +:+ x) = Some (r +:+ x).
Proof.
  intros E%strip_prefix_Some. by rewrite E, app_assoc, strip_prefix_app.
Qed.

(** What the lazy capture holds: no line terminator and no closing. *)
Lemma lazy_until_clean close s : forall u rest,
  close <> EmptyString ->
  lazy_until close s = Some (u, rest) ->
  noneOf isLineTerminator u = true /\ occurs close u = false.
Proof.
  induction s as [|c s IH]; intros u rest Hne; rewrite lazy_until_unfold.
  - destruct (strip_prefix close EmptyString) eqn:E; [|done].
    intros [= <- <-]. split; [done|]. simpl. unfold startsWith.
    destruct close; [done | done].
  - destruct (strip_prefix close (String c s)) eqn:E.
    { intros [= <- <-]. split; [done|]. simpl. unfold startsWith.
      destruct close; [done | done]. }
    destruct (isLineTerminator c) eqn:Hc; [done|].
    destruct (lazy_until close s) as [[u' rest']|] eqn:L; [|done].
    intros [= <- <-]. destruct (IH _ _ Hne eq_refl) as [Hl Ho].
    simpl. rewrite Hc, Hl, Ho. split; [done|].
    rewrite orb_false_r. unfold startsWith.
    destruct (strip_prefix close (String c u')) as [r|] eqn:E'; [|done].
    apply lazy_until_Some in L.
    apply (strip_prefix_app_r _ _ _ (close +:+ rest')) in E'.
    rewrite app_cons, <- L in E'. congruence.
Qed.

(** X9.  Every id the scanner returns lies on one line and does not hold
    the closing of a marker. *)
Theorem scanned_ids_are_clean (content u : string) :
  In u (extractMessageUIDsFromNote content) ->
  noneOf isLineTerminator u = true /\ occurs UID_CLOSE u = false.
Proof.
  remember (String.length content) as n eqn:Hn.
  assert (String.length content <= n)%nat as Hle by lia. clear Hn.
  revert content Hle. induction n as [|n IH]; intros content Hle.
  - destruct content; [done | simpl in Hle; lia].
  - destruct content as [|c s]; [done|]. simpl in Hle. rewrite scan_unfold.
    destruct (strip_prefix UID_OPEN (String c s)) as [r|] eqn:E;
      [|apply IH; lia].
    destruct (lazy_until UID_CLOSE r) as [[uid rest]|] eqn:L; [|apply IH; lia].
    intros [<-|Hin].
    + by apply (lazy_until_clean UID_CLOSE r uid rest).
    + revert Hin. apply IH.
      apply lazy_until_rest_length in L. apply strip_prefix_Some in E.
      assert (String.length (String c s) = String.length (UID_OPEN +:+ r)) as Hlen
        by (by rewrite E).
      rewrite app_length in Hlen. simpl in Hlen. lia.
Qed.

Lemma lineTerminator_not_in_open c :
  isLineTerminator c = true -> noneOf (Ascii.eqb c) UID_OPEN = true.
Proof.
  unfold isLineTerminator. intros [E|E]%orb_true_iff;
    apply Ascii.eqb_eq in E as ->; done.
Qed.

Lemma lineTerminator_not_in_close c :
  isLineTerminator c = true -> noneOf (Ascii.eqb c) UID_CLOSE = true.
Proof.
  unfold isLineTerminator. intros [E|E]%orb_true_iff;
    apply Ascii.eqb_eq in E as ->; done.
Qed.

Lemma strip_prefix_before_terminator p c t x :
  noneOf (Ascii.eqb c) p = true ->
  strip_prefix p (t +:+ String c x) =
    match strip_prefix p t with
    | Some r => Some (r +:+ String c x)
    | None => None
    end.
Proof.
  intros Hp. destruct (strip_prefix p t) as [r|] eqn:E.
  - by apply strip_prefix_app_r.
  - destruct (strip_prefix p (t +:+ String c x)) as [r|] eqn:E'; [|done].
    destruct (strip_prefix_no_straddle _ _ _ _ _ Hp E') as [r' Hr']. congruence.
Qed.

(** The lazy capture does not look beyond the end of the line. *)
Lemma lazy_until_before_terminator c x r :
  isLineTerminator c = true ->
  lazy_until UID_CLOSE (r +:+ String c x) =
    match lazy_until UID_CLOSE r with
    | Some (u, rest) => Some (u, rest +:+ String c x)
    | None => None
    end.
Proof.
  intros Hc. pose proof (lineTerminator_not_in_close c Hc) as Hp.
  induction r as [|y r IH].
  - rewrite (lazy_until_unfold _ (_ +:+ _)), (lazy_until_unfold _ EmptyString).
    rewrite strip_prefix_before_terminator by done.
    destruct (strip_prefix UID_CLOSE EmptyString); [done|].
    rewrite app_nil_l. by rewrite Hc.
  - rewrite (lazy_until_unfold _ (_ +:+ _)), (lazy_until_unfold _ (String y r)).
    rewrite strip_prefix_before_terminator by done.
    destruct (strip_prefix UID_CLOSE (String y r)); [done|].
    rewrite app_cons. destruct (isLineTerminator y); [done|].
    rewrite IH. by destruct (lazy_until UID_CLOSE r) as [[??]|].
Qed.

Lemma terminator_opens_nothing c s :
  isLineTerminator c = true -> strip_prefix UID_OPEN (String c s) = None.
Proof.
  intros Hc. destruct (strip_prefix UID_OPEN (String c s)) as [r|] eqn:E; [|done].
  assert (startsWith UID_OPEN (String c s) = true) as Hs
    by (unfold startsWith; by rewrite E).
  apply startsWith_head in Hs as <-. done.
Qed.

Lemma scan_before_terminator (a b : string) (c : ascii) :
  isLineTerminator c = true ->
  extractMessageUIDsFromNote (a +:+ String c b)
  = extractMessageUIDsFromNote a ++ extractMessageUIDsFromNote b.
Proof.
  intros Hc. pose proof (lineTerminator_not_in_open c Hc) as Hp.
  remember (String.length a) as n eqn:Hn.
  assert (String.length a <= n)%nat as Hle by lia. clear Hn.
  revert a Hle. induction n as [|n IH]; intros a Hle.
  - destruct a; [|simpl in Hle; lia].
    by rewrite app_nil_l, scan_cons_skip by by apply terminator_opens_nothing.
  - destruct a as [|y a].
    { by rewrite app_nil_l, scan_cons_skip by by apply terminator_opens_nothing. }
    simpl in Hle. rewrite app_cons, !scan_unfold, <- app_cons.
    rewrite strip_prefix_before_terminator by done.
    destruct (strip_prefix UID_OPEN (String y a)) as [r|] eqn:E;
      [|apply IH; lia].
    rewrite lazy_until_before_terminator by done.
    destruct (lazy_until UID_CLOSE r) as [[uid rest]|] eqn:L; [|apply IH; lia].
    simpl. f_equal. apply IH.
    apply lazy_until_rest_length in L.
    apply strip_prefix_Some in E.
    assert (String.length (String y a) = String.length (UID_OPEN +:+ r)) as Hlen
      by (by rewrite E).
    rewrite app_length in Hlen. simpl in Hlen. lia.
Qed.

(** X10.  No marker spans two lines: the ids of a text are the ids found
    before a line terminator followed by the ids found after it. *)
Theorem scan_line_by_line (a b : string) (c : ascii) :
  isLineTerminator c = true ->
  extractMessageUIDsFromNote (a +:+ String c b)
  = extractMessageUIDsFromNote a ++ extractMessageUIDsFromNote b.
Proof. apply scan_before_terminator. Qed.

(* ================================================================= *)
(** ** Merging into an existing note *)

Lemma close_last_cons c x ls :
  ls <> [] -> close_last c (x :: ls) = x :: close_last c ls.
Proof. destruct ls; [done|]. by destruct x. Qed.

Lemma split_lines_not_nil s : split_lines s <> [].
Proof. by destruct (split_lines_cons s) as (l & t & ls & ->). Qed.

Lemma split_lines_before_terminator a b c :
  isLineTerminator c = true ->
  split_lines (a +:+ String c b) = close_last c (split_lines a) ++ split_lines b.
Proof.
  intros Hc. induction a as [|y a IH].
  - rewrite app_nil_l. simpl. by rewrite Hc.
  - rewrite app_cons. simpl. destruct (isLineTerminator y).
    + rewrite close_last_cons by apply split_lines_not_nil. by rewrite IH.
    + rewrite IH. destruct (split_lines_cons a) as (l & t & ls & ->).
      destruct ls as [|lt ls]; [done|].
      by rewrite !close_last_cons by done.
Qed.

Lemma rewrite_first_not_nil key new ls : ls <> [] -> rewrite_first key new ls <> [].
Proof.
  destruct ls as [|[l t] ls]; [done|]. simpl. by destruct (startsWith key l).
Qed.

Lemma rewrite_first_cons key new l t ls :
  rewrite_first key new ((l, t) :: ls) =
    if startsWith key l then (new, t) :: ls
    else (l, t) :: rewrite_first key new ls.
Proof. done. Qed.

Lemma rewrite_first_close_last key new c ls ls' :
  first_line_with key ls <> None ->
  rewrite_first key new (close_last c ls ++ ls')
  = close_last c (rewrite_first key new ls) ++ ls'.
Proof.
  induction ls as [|[l t] ls IH]; [done|]. simpl first_line_with.
  destruct ls as [|lt ls].
  - simpl. destruct (startsWith key l); [done|]. by intros [].
  - rewrite close_last_cons by done.
    rewrite <- app_comm_cons, !rewrite_first_cons.
    destruct (startsWith key l) eqn:E.
    + intros _. by rewrite (close_last_cons c (new, t)) by done.
    + intros Hf.
      rewrite (close_last_cons c (l, t)) by by apply rewrite_first_not_nil.
      rewrite <- app_comm_cons. f_equal. apply IH.
      by destruct (first_line_with key (lt :: ls)).
Qed.

Lemma first_line_with_rewrite_same key new ls :
  startsWith key new = true ->
  first_line_with key (rewrite_first key new ls) = first_line_with key ls.
Proof.
  intros Hn. induction ls as [|[l t] ls IH]; [done|]. simpl.
  destruct (startsWith key l) eqn:E; simpl; [by rewrite Hn|]. by rewrite E, IH.
Qed.

Lemma keys_apart_sym l :
  startsWith "Last Updated: " l = true -> startsWith "update_time: " l = false.
Proof.
  intros E. destruct (startsWith "update_time: " l) eqn:E1; [|done].
  apply keys_apart in E1. congruence.
Qed.

Section Merge.
Context `{Utils} `{Host}.

Lemma updateMetadata_idem content t :
  plain (dateAtTime t) = true ->
  updateMetadata (updateMetadata content t) t = updateMetadata content t.
Proof.
  intros Hp. apply split_lines_inj. rewrite !(split_updateMetadata _ _ Hp).
  apply rewrite_twice_idem;
    [apply keys_apart | apply startsWith_app | apply startsWith_app].
Qed.

Lemma hasLine_updateMetadata key content t :
  key = "update_time: " \/ key = "Last Updated: " ->
  plain (dateAtTime t) = true ->
  hasLine key (updateMetadata content t) = hasLine key content.
Proof.
  intros Hk Hp. unfold hasLine. rewrite (split_updateMetadata _ _ Hp).
  destruct Hk as [-> | ->].
  - rewrite (first_line_with_rewrite_other "Last Updated: "
               ("Last Updated: " +:+ dateAtTime t) "update_time: "
               keys_apart_sym (startsWith_app _ _)).
    by rewrite first_line_with_rewrite_same by apply startsWith_app.
  - rewrite first_line_with_rewrite_same by apply startsWith_app.
    by rewrite (first_line_with_rewrite_other "update_time: "
                  ("update_time: " +:+ dateAtTime t) "Last Updated: "
                  keys_apart (startsWith_app _ _)).
Qed.

(** Text appended after a line terminator to a note that has both metadata
    lines and is up to date is not touched by [updateMetadata]. *)
Lemma updateMetadata_keeps_appended x c r t :
  plain (dateAtTime t) = true ->
  isLineTerminator c = true ->
  hasLine "update_time: " x = true -> hasLine "Last Updated: " x = true ->
  updateMetadata x t = x ->
  updateMetadata (x +:+ String c r) t = x +:+ String c r.
Proof.
  intros Hp Hc H1 H2 Hfix. apply split_lines_inj.
  rewrite (split_updateMetadata _ _ Hp), !split_lines_before_terminator by done.
  pose proof (split_updateMetadata x t Hp) as Hx. rewrite Hfix in Hx.
  unfold hasLine in H1, H2.
  rewrite rewrite_first_close_last
    by by destruct (first_line_with "update_time: " (split_lines x)).
  rewrite rewrite_first_close_last; [by rewrite <- Hx|].
  rewrite (first_line_with_rewrite_other "update_time: "
             ("update_time: " +:+ dateAtTime t) "Last Updated: "
             keys_apart (startsWith_app _ _)).
  by destruct (first_line_with "Last Updated: " (split_lines x)).
Qed.

Lemma join_cons sep b bs :
  join sep (b :: bs) =
    b +:+ match bs with [] => EmptyString | _ => sep +:+ join sep bs end.
Proof. destruct bs; [by rewrite app_nil_r | done]. Qed.

Lemma getNewMessages_newNodes chat ids :
  getNewMessages chat ids = map (fun kv => message (snd kv)) (newNodes chat ids).
Proof. done. Qed.

Lemma newNodes_render chat ids :
  mergeable chat = true -> forallb nodeRenders (newNodes chat ids) = true.
Proof.
  unfold mergeable, newNodes. induction (mapping chat) as [|kv l IH]; [done|].
  simpl. intros [Hkv Hl]%andb_true_iff. unfold nodeMergeable in Hkv.
  destruct (negb (String.eqb (node_id kv.2) EmptyString)); simpl in *; [|by apply IH].
  destruct (includes ids (node_id kv.2)); simpl; [by apply IH|].
  destruct (isValidMessage (message kv.2)); simpl in *; [|by apply IH].
  by rewrite Hkv, IH.
Qed.

Lemma formatNewMessages_blocks nodes :
  forallb nodeRenders nodes = true ->
  formatNewMessages (map (fun kv => message (snd kv)) nodes)
  = join (nl +:+ nl) (map (fun kv => formatMessage (message (snd kv))) nodes).
Proof.
  unfold formatNewMessages. intros Hn. f_equal. rewrite map_map.
  induction nodes as [|kv nodes IH]; [done|].
  simpl in Hn. apply andb_true_iff in Hn as [Hkv Hn]. cbn [map List.filter].
  unfold nodeRenders in Hkv. destruct (message kv.2) as [m|]; [|done].
  rewrite IH by done.
  assert (String.eqb (formatMessage (Some m)) EmptyString = false) as ->; [|done].
  unfold formatMessage, messageBody, messageHeading, headingLevel.
  by destruct (String.eqb (authorName m) "User").
Qed.

Lemma scan_joined_blocks nodes :
  forallb nodeRenders nodes = true ->
  extractMessageUIDsFromNote
    (join (nl +:+ nl) (map (fun kv => formatMessage (message (snd kv))) nodes))
  = map (fun kv => node_id (snd kv)) nodes.
Proof.
  induction nodes as [|kv nodes IH]; [done|].
  cbn [forallb map]. intros [Hkv Hn]%andb_true_iff. rewrite join_cons.
  unfold nodeRenders in Hkv. destruct (message kv.2) as [m|]; [|done].
  apply andb_true_iff in Hkv as [[Hid Hb]%andb_true_iff Hr].
  apply String.eqb_eq in Hid. rewrite scan_block by done. rewrite Hid. f_equal.
  destruct nodes as [|kv' nodes]; [done|].
  cbn [map]. rewrite scan_skip_units by done. by apply IH.
Qed.

Lemma includes_app ids ids' x :
  includes (ids ++ ids') x = includes ids x || includes ids' x.
Proof. unfold includes. apply existsb_app. Qed.

Lemma includes_In ids x : In x ids -> includes ids x = true.
Proof.
  intros Hin. unfold includes. apply existsb_exists. exists x.
  split; [done | apply String.eqb_refl].
Qed.

(** After the ids of the selected nodes are in the note, no node is
    selected. *)
Lemma newNodes_after chat ids :
  newNodes chat (ids ++ map (fun kv => node_id (snd kv)) (newNodes chat ids)) = [].
Proof.
  set (ids' := map (fun kv => node_id (snd kv)) (newNodes chat ids)).
  assert (forall kv, In kv (newNodes chat ids) -> In (node_id kv.2) ids') as Hin.
  { intros kv Hkv. unfold ids'. apply in_map_iff. by exists kv. }
  clearbody ids'. revert Hin. unfold newNodes.
  induction (mapping chat) as [|kv l IH]; intros Hin; [done|]. simpl in *.
  rewrite includes_app.
  destruct (negb (String.eqb (node_id kv.2) EmptyString)); simpl in *; [|by apply IH].
  destruct (includes ids (node_id kv.2)); simpl in *; [by apply IH|].
  destruct (isValidMessage (message kv.2)); simpl in *.
  - rewrite includes_In by (apply Hin; by left). simpl. apply IH.
    intros kv' Hkv'. apply Hin. by right.
  - rewrite andb_false_r. by apply IH.
Qed.

Lemma scan_mergedContent (chat : Chat) (original : string) :
  mergeable chat = true ->
  let content := updateMetadata original (update_time chat) in
  extractMessageUIDsFromNote (mergedContent chat original)
  = extractMessageUIDsFromNote content
    ++ map (fun kv => node_id (snd kv))
         (newNodes chat (extractMessageUIDsFromNote content)).
Proof.
  intros Hm content. unfold mergedContent. fold content.
  rewrite getNewMessages_newNodes, length_map.
  pose proof (newNodes_render chat (extractMessageUIDsFromNote content) Hm) as Hr.
  destruct (newNodes chat (extractMessageUIDsFromNote content)) as [|kv nodes];
    [by rewrite List.app_nil_r|].
  cbn [length Nat.ltb Nat.leb].
  change (content +:+ nl +:+ nl +:+ ?f) with (content +:+ String LF (nl +:+ f)).
  rewrite scan_before_terminator by done. f_equal.
  rewrite scan_skip_units by done.
  rewrite formatNewMessages_blocks by done. by apply scan_joined_blocks.
Qed.

(** X11.  When every node a merge can pick has a message with the id of
    the node, an id that round-trips and no marker opening in its text,
    the ids scanned from the merged text are the ids scanned from the note
    with its metadata rewritten, followed by the ids of the selected
    nodes, in their order: a merge adds one marker for each new message
    and leaves the markers of the note as they are. *)
Theorem merge_appends_the_new_ids (chat : Chat) (original : string) :
  mergeable chat = true ->
  let content := updateMetadata original (update_time chat) in
  extractMessageUIDsFromNote (mergedContent chat original)
  = extractMessageUIDsFromNote content
    ++ map (fun kv => node_id (snd kv))
         (newNodes chat (extractMessageUIDsFromNote content)).
Proof. apply scan_mergedContent. Qed.

Lemma mergedContent_fixed (chat : Chat) (original : string) :
  plain (dateAtTime (update_time chat)) = true ->
  hasLine "update_time: " original = true ->
  hasLine "Last Updated: " original = true ->
  mergeable chat = true ->
  mergedContent chat (mergedContent chat original) = mergedContent chat original.
Proof.
  intros Hp H1 H2 Hm.
  pose proof (scan_mergedContent chat original Hm) as Hscan.
  simpl in Hscan. revert Hscan. unfold mergedContent at 1 3 4.
  set (content := updateMetadata original (update_time chat)).
  rewrite getNewMessages_newNodes, length_map.
  assert (updateMetadata content (update_time chat) = content) as Hfix
    by by apply updateMetadata_idem.
  pose proof (newNodes_after chat (extractMessageUIDsFromNote content)) as Hafter.
  destruct (newNodes chat (extractMessageUIDsFromNote content))
    as [|kv nodes] eqn:E.
  - cbn [length Nat.ltb Nat.leb]. intros _. unfold mergedContent.
    rewrite Hfix, getNewMessages_newNodes, length_map. fold content. by rewrite E.
  - cbn [length Nat.ltb Nat.leb]. intros Hscan. unfold mergedContent.
    change (content +:+ nl +:+ nl +:+ ?f) with (content +:+ String LF (nl +:+ f))
      in *.
    rewrite updateMetadata_keeps_appended;
      [|done|done|by unfold content; rewrite hasLine_updateMetadata by auto
       |by unfold content; rewrite hasLine_updateMetadata by auto|done].
    by rewrite getNewMessages_newNodes, length_map, Hscan, Hafter.
Qed.

(** X12.  Merging is idempotent on a note that has both metadata lines:
    merging the same conversation into the merged text gives the merged
    text. *)
Theorem merge_is_idempotent (chat : Chat) (original : string) :
  plain (dateAtTime (update_time chat)) = true ->
  hasLine "update_time: " original = true ->
  hasLine "Last Updated: " original = true ->
  mergeable chat = true ->
  mergedContent chat (mergedContent chat original) = mergedContent chat original.
Proof. apply mergedContent_fixed. Qed.

End Merge.

Section SecondUpdate.
Context `{Utils} `{Host}.




End SecondUpdate.

(* ================================================================= *)
(** ** The metadata rewrite on notes with and without a header *)

Section ReplaceNothing.
Variables (key repl : string).
Hypothesis key_line : noneOf isLineTerminator key = true.
Hypothesis key_nonempty : key <> EmptyString.

(** Without a line that starts with [key], [replace] gives the text back,
    whatever the replacement is. *)
Lemma replace_line_from_no_match s : forall (bol : bool) (before : string),
  (if bol then first_line_with key (split_lines s)
   else first_line_with key (List.tl (split_lines s))) = None ->
  replace_line_from key repl bol before s = s.
Proof.
  induction s as [|c s IH]; intros bol before Hnone.
  - unfold replace_line_from, match_line_at. destruct bol; [|done].
    destruct key; [by destruct key_nonempty | done].
  - destruct (split_lines_cons (String c s)) as (l & t & ls & Hs).
    pose proof (startsWith_split_lines key _ _ _ _ key_line Hs) as Hsw.
    rewrite Hs in Hnone. unfold replace_line_from; fold replace_line_from.
    assert (match_line_at key bol (String c s) = None) as ->.
    { unfold match_line_at. destruct bol; [|done].
      simpl in Hnone. unfold startsWith in Hsw.
      destruct (strip_prefix key (String c s)); [|done].
      unfold startsWith in Hnone.
      destruct (strip_prefix key l); [done | done]. }
    f_equal. apply IH. simpl in Hs.
    destruct (isLineTerminator c).
    + injection Hs as <- <- <-. destruct bol; [|done]. simpl in Hnone.
      rewrite startsWith_key_nil in Hnone by done.
      by destruct (first_line_with key (split_lines s)).
    + destruct (split_lines_cons s) as (l' & t' & ls' & Hs'). rewrite Hs' in *.
      injection Hs as <- <- <-. simpl. destruct bol; [|done]. simpl in Hnone.
      destruct (startsWith key (String c l')); [done|].
      by destruct (first_line_with key ls').
Qed.

End ReplaceNothing.

Lemma split_lines_line l x :
  oneLine l = true ->
  split_lines (l +:+ String LF x) = (l, Some LF) :: split_lines x.
Proof.
  intros Hl. rewrite split_lines_app by done.
  change (split_lines (String LF x)) with ((EmptyString, Some LF) :: split_lines x).
  cbv iota. by rewrite app_nil_r.
Qed.

Lemma split_lines_unlines ls rest :
  forallb oneLine ls = true ->
  split_lines (unlines ls rest)
  = map (fun l => (l, Some LF)) ls ++ split_lines rest.
Proof.
  induction ls as [|l ls IH]; [done|]. cbn [forallb unlines foldr map].
  intros [Hl Hls]%andb_true_iff. rewrite split_lines_line by done.
  fold (unlines ls rest). by rewrite IH.
Qed.

Section Header.
Context `{Utils} `{Host}.

(** X14.  A note in which no line starts with [update_time: ] and none
    with [Last Updated: ] is returned by [updateMetadata] as it is,
    whatever the timestamp renders as. *)
Theorem note_without_metadata_lines_is_kept (content : string) (t : Z) :
  hasLine "update_time: " content = false ->
  hasLine "Last Updated: " content = false ->
  updateMetadata content t = content.
Proof.
  unfold hasLine, updateMetadata, replace_line. intros H1 H2.
  rewrite (replace_line_from_no_match "update_time: "); [|done|done|].
  - rewrite (replace_line_from_no_match "Last Updated: "); [done|done|done|].
    by destruct (first_line_with "Last Updated: " (split_lines content)).
  - by destruct (first_line_with "update_time: " (split_lines content)).
Qed.

Lemma generateHeader_unlines t i c u rest :
  generateHeader t i c u +:+ rest = unlines (headerLines t i c u) rest.
Proof.
  unfold generateHeader, headerLines, unlines. cbn [foldr].
  by rewrite !app_assoc.
Qed.

Lemma headerLines_oneLine t i c u :
  oneLine manifest_id = true -> oneLine t = true -> oneLine i = true ->
  oneLine c = true -> oneLine u = true ->
  forallb oneLine (headerLines t i c u) = true.
Proof.
  unfold oneLine, headerLines. intros Hm Ht Hi Hc Hu. cbn [forallb].
  rewrite !noneOf_app, Hm, Ht, Hi, Hc, Hu. done.
Qed.

(** X15.  Rewriting the metadata of a rendered note gives the note
    rendered at the new revision: for a conversation whose rendered title,
    id and timestamps stay on one line, [updateMetadata] applied to
    [generateMarkdownContent chat] is [generateMarkdownContent] of the
    conversation with the new [update_time]. *)
Theorem updateMetadata_of_rendered_note (chat : Chat) (t : Z) :
  oneLine manifest_id = true ->
  oneLine (formatTitle (title chat)) = true ->
  oneLine (id chat) = true ->
  oneLine (dateAtTime (create_time chat)) = true ->
  oneLine (dateAtTime (update_time chat)) = true ->
  plain (dateAtTime t) = true ->
  updateMetadata (generateMarkdownContent chat) t
  = generateMarkdownContent (withUpdateTime chat t).
Proof.
  intros Hm Ht Hi Hc Hu Hp.
  assert (oneLine (dateAtTime t) = true) as Hn.
  { revert Hp. apply noneOf_weaken. intros c ->. done. }
  apply split_lines_inj. rewrite (split_updateMetadata _ _ Hp).
  unfold generateMarkdownContent.
  change (generateMessagesContent (withUpdateTime chat t))
    with (generateMessagesContent chat).
  cbn [withUpdateTime id title create_time update_time].
  rewrite !generateHeader_unlines.
  rewrite !split_lines_unlines by by apply headerLines_oneLine.
  unfold headerLines. cbn [map app].
  repeat (rewrite rewrite_first_cons;
          match goal with
          | |- context [startsWith ?k (?k +:+ ?x)] => rewrite (startsWith_app k x)
          | |- context [startsWith ?k ?l] =>
              change (startsWith k l) with false
          end; cbv iota).
  done.
Qed.

End Header.

(** X16.  A text in which no marker opens has no ids: the empty note and
    every note written without markers. *)
Theorem unmarked_note_has_no_ids (content : string) :
  markerFree content = true -> extractMessageUIDsFromNote content = [].
Proof.
  intros Hf. rewrite <- (app_nil_r content). by rewrite scan_skip_free.
Qed.

(* ================================================================= *)
(** ** The report as a document *)

Lemma fold_left_rows {A : Type} (row row' : A -> string) (f : A -> A) es : forall a,
  (forall e, row' (f e) = row e) ->
  fold_left (fun table e => table +:+ row' e) (map f es) a
  = fold_left (fun table e => table +:+ row e) es a.
Proof.
  induction es as [|e es IH]; intros a Hrow; [done|]. simpl.
  rewrite Hrow. by apply IH.
Qed.

Lemma generateTable_shown title es emoji headers :
  (forall e, tableRow emoji headers (shownInTables e) = tableRow emoji headers e) ->
  generateTable title (map shownInTables es) emoji headers
  = generateTable title es emoji headers.
Proof.
  intros Hrow. unfold generateTable. f_equal.
  by apply (fold_left_rows (tableRow emoji headers) (tableRow emoji headers)).
Qed.

(** X17.  The document of a report does not depend on the error messages
    of its failed entries nor on the message counts of its updated
    entries: the column [Error] and the column [Added messages] hold a
    dash in every row. *)
Theorem report_document_hides_details (r : ImportReport) :
  generateReportContent (withoutDetails r) = generateReportContent r.
Proof.
  unfold generateReportContent, withoutDetails.
  cbn [created updated skipped failed globalErrors summary].
  rewrite !length_map.
  rewrite (generateTable_shown "Updated notes") by done.
  by rewrite (generateTable_shown "Failed imports") by done.
Qed.

(* ================================================================= *)
(** ** The quoted text of a message *)

Lemma split_lf_cons s : exists l ls, split_lf s = l :: ls.
Proof.
  induction s as [|c s (l & ls & IH)]; simpl; [by eauto|].
  destruct (Ascii.eqb c LF); [by eauto|]. rewrite IH. by eauto.
Qed.

Lemma join_split_lf s : join nl (split_lf s) = s.
Proof.
  induction s as [|c s IH]; [done|]. simpl.
  destruct (split_lf_cons s) as (l & ls & E). rewrite E in *.
  destruct (Ascii.eqb_spec c LF) as [->|Hc].
  - rewrite join_cons. rewrite app_nil_l. cbv iota.
    change (nl +:+ ?x) with (String LF x). by rewrite IH.
  - rewrite join_cons in *. rewrite app_cons. by rewrite IH.
Qed.

Lemma split_lf_lines s : forallb (noneOf (fun c => Ascii.eqb c LF)) (split_lf s) = true.
Proof.
  induction s as [|c s IH]; [done|]. simpl.
  destruct (split_lf_cons s) as (l & ls & E). rewrite E in *.
  destruct (Ascii.eqb c LF) eqn:Hc; [done|]. simpl in *. by rewrite Hc.
Qed.

Lemma split_lf_app l rest :
  noneOf (fun c => Ascii.eqb c LF) l = true ->
  split_lf (l +:+ String LF rest) = l :: split_lf rest.
Proof.
  induction l as [|c l IH]; [done|]. simpl.
  intros [Hc Hl]%andb_true_iff. apply negb_true_iff in Hc.
  by rewrite Hc, IH.
Qed.

Lemma split_lf_one l :
  noneOf (fun c => Ascii.eqb c LF) l = true -> split_lf l = [l].
Proof.
  induction l as [|c l IH]; [done|]. simpl.
  intros [Hc Hl]%andb_true_iff. apply negb_true_iff in Hc.
  by rewrite Hc, IH.
Qed.

Lemma split_lf_join ls :
  ls <> [] ->
  forallb (noneOf (fun c => Ascii.eqb c LF)) ls = true ->
  split_lf (join nl ls) = ls.
Proof.
  induction ls as [|l ls IH]; [done|]. intros _. cbn [forallb].
  intros [Hl Hls]%andb_true_iff. rewrite join_cons.
  destruct ls as [|l' ls].
  - rewrite app_nil_r. by apply split_lf_one.
  - change (nl +:+ ?x) with (String LF x). rewrite split_lf_app by done.
    by rewrite IH.
Qed.

Lemma mapM_strip_prefix p ls :
  mapM (strip_prefix p) (map (fun l => p +:+ l) ls) = Some ls.
Proof.
  induction ls as [|l ls IH]; [done|]. cbn [map]. simpl mapM.
  by rewrite strip_prefix_app, IH.
Qed.

Section Quote.
Context `{Utils} `{Host}.

(** X18.  The quoted text of a message that has text can be unquoted:
    split at the line feeds, every line of the quote starts with the quote
    mark and a space, and what follows on the lines are the lines of the
    text, which joined by line feeds are the text. *)
Theorem quote_round_trip (m : ChatMessage) (c : Content) (ps : list Part) :
  content m = Some c -> parts c = Some ps -> messageText ps <> EmptyString ->
  mapM (strip_prefix (quoteChar m +:+ " ")) (split_lf (messageQuote m))
    = Some (split_lf (messageText ps))
  /\ join nl (split_lf (messageText ps)) = messageText ps.
Proof.
  intros Hc Hps Htxt. split; [|apply join_split_lf].
  unfold messageQuote. rewrite Hc, Hps.
  destruct (messageText ps) as [|a txt] eqn:E; [done|].
  set (text := String a txt).
  assert (map (fun line => quoteChar m +:+ " " +:+ line) (split_lf text)
          = map (fun l => (quoteChar m +:+ " ") +:+ l) (split_lf text)) as ->.
  { apply map_ext. intros l. by rewrite app_assoc. }
  rewrite split_lf_join; [apply mapM_strip_prefix | |].
  - destruct (split_lf_cons text) as (l & ls & ->). done.
  - pose proof (split_lf_lines text) as Hl.
    induction (split_lf text) as [|l ls IH]; [done|]. cbn [map forallb] in *.
    apply andb_true_iff in Hl as [Hl Hls].
    rewrite noneOf_app, Hl, IH by done.
    unfold quoteChar. by destruct (String.eqb (authorName m) "User").
Qed.

End Quote.

(* ================================================================= *)
(** ** The order of the picked files *)

Lemma sort_insert_perm {A : Type} (cmp : A -> A -> Z) x l :
  sort_insert cmp x l ≡ₚ x :: l.
Proof.
  induction l as [|y l IH]; [done|]. simpl.
  destruct (cmp x y <=? 0); [done|]. rewrite IH. apply Permutation_swap.
Qed.

Section Picked.
Context `{Host}.

(** X19.  The files are handed on each exactly once: the order in which
    they are processed is a permutation of the files picked. *)
Theorem every_picked_file_is_processed_once (files : list File) :
  sortedFiles files ≡ₚ files.
Proof.
  unfold sortedFiles, js_sort. induction files as [|f files IH]; [done|].
  simpl. by rewrite sort_insert_perm, IH.
Qed.

End Picked.

(* ================================================================= *)
(** ** What the report says and what the vault holds *)

Section ReportAndVault.
Context `{Utils} `{Host}.

Lemma scan_rendered_note chat :
  markerFree (generateHeader (formatTitle (title chat)) (id chat)
                (dateAtTime (create_time chat)) (dateAtTime (update_time chat)))
    = true ->
  forallb (fun m => markerFree (messageBody m) && roundTrips (msg_id m))
    (validMessages chat) = true ->
  extractMessageUIDsFromNote (generateMarkdownContent chat)
    = map msg_id (validMessages chat).
Proof.
  intros Hh Hms. unfold generateMarkdownContent, generateMessagesContent.
  rewrite fold_left_append, app_nil_l, messageBlocks_valid.
  rewrite scan_skip_free; [by apply scan_blocks | done | apply blocks_start].
Qed.

Lemma validMessageCount_validMessages chat :
  isValidMessage None = false ->
  validMessageCount chat = length (validMessages chat).
Proof.
  intros Hnone. unfold validMessageCount, validMessages.
  induction (mapping chat) as [|[k n] l IH]; [done|].
  unfold omap in *. simpl in *. destruct (message n) as [m|].
  - destruct (isValidMessage (Some m)); simpl; by rewrite IH.
  - by rewrite Hnone.
Qed.

(** X20.  The number of messages the created entry of a conversation
    reports is the number of markers in the note written for it, when the
    note round-trips and [isValidMessage] refuses a missing message. *)
Theorem created_count_is_marker_count (chat : Chat) :
  isValidMessage None = false ->
  markerFree (generateHeader (formatTitle (title chat)) (id chat)
                (dateAtTime (create_time chat)) (dateAtTime (update_time chat)))
    = true ->
  forallb (fun m => markerFree (messageBody m) && roundTrips (msg_id m))
    (validMessages chat) = true ->
  length (extractMessageUIDsFromNote (generateMarkdownContent chat))
  = validMessageCount chat.
Proof.
  intros Hnone Hh Hms.
  by rewrite scan_rendered_note, length_map, validMessageCount_validMessages.
Qed.

(** X21.  An update whose write the vault refuses is only logged: the note
    and the catalog stay as they are and the report gains no entry, not a
    failed one and not a global error either; the logger receives the
    message of the vault twice. *)
Theorem refused_update_is_only_logged
    (chat : Chat) (fp : string) (n : nat) (p : Plugin) (original msg : string) :
  vault p !! fp = Some (TFile original) ->
  mergedContent chat original <> original ->
  vault_refuses fp (mergedContent chat original) = Some msg ->
  let p' := exec (updateExistingNote chat (Some fp) n) p in
  fst (updateExistingNote chat (Some fp) n p) = Returned tt
  /\ importReport p' = importReport p
  /\ vault p' = vault p
  /\ conversationCatalog p' = conversationCatalog p
  /\ writes p' = writes p ++ [(fp, mergedContent chat original)]
  /\ map snd (console p') = map snd (console p) ++ [msg; msg].
Proof.
  intros Hfile Hne Hrefuse p'. revert Hne Hrefuse.
  unfold p', mergedContent, exec, updateExistingNote.
  run. rewrite Hfile.
  set (content := updateMetadata original (update_time chat)).
  set (new := getNewMessages chat (extractMessageUIDsFromNote content)).
  destruct (0 <? length new)%nat; run; intros Hne Hrefuse.
  - match goal with |- context [String.eqb ?a original] =>
      destruct (String.eqb_spec a original) as [E|E]; [done|]; run end.
    unfold writeToFile, vault_store. run. rewrite Hfile. run.
    rewrite Hrefuse. run. rewrite !map_app, <- !List.app_assoc. by repeat split.
  - destruct (String.eqb_spec content original) as [E|E]; [done|]; run.
    unfold writeToFile, vault_store. run. rewrite Hfile. run.
    rewrite Hrefuse. run. rewrite !map_app, <- !List.app_assoc. by repeat split.
Qed.

End ReportAndVault.

(* ================================================================= *)
(** ** The further properties on concrete conversations *)

Section OnSampleMore.
Import Sample.
#[local] Existing Instance utils.
#[local] Existing Instance host.



Lemma catalog_stays_well_formed_witness :
  catalogOk (conversationCatalog afterTrip) = true
  /\ catalogOk (conversationCatalog
                  (exec (processChats [other; tripLater]) afterTrip)) = true.
Proof.
  assert (catalogOk (conversationCatalog afterTrip) = true) as Hok
    by (by vm_compute).
  split; [done|].
  exact (catalog_stays_well_formed [other; tripLater] afterTrip Hok).
Defined.

Lemma catalog_entry_is_written_once_witness :
  let e := {| conversationId := "c1"; path := tripPath;
              updateTime := 1700000000; provider := "chatgpt" |} in
  conversationCatalog afterTrip !! "c1" = Some (CVEntry e)
  /\ conversationCatalog (exec (processChats [other; tripLater]) afterTrip) !! "c1"
     = Some (CVEntry e).
Proof.
  intros e.
  assert (conversationCatalog afterTrip !! "c1" = Some (CVEntry e)) as Hk
    by (by vm_compute).
  split; [done|].
  exact (catalog_entry_is_written_once [other; tripLater] afterTrip "c1" e Hk).
Defined.

Lemma no_errors_iff_all_processed_witness :
  hasErrors (importReport afterTrip) = false
  /\ (hasErrors (importReport (exec (processChats [other; tripLater]) afterTrip))
      = false
      <-> processed (exec (processChats [other; tripLater]) afterTrip)
          = (processed afterTrip + 2)%nat).
Proof.
  assert (hasErrors (importReport afterTrip) = false) as Hno by reflexivity.
  split; [done|].
  exact (no_errors_iff_all_processed [other; tripLater] afterTrip Hno).
Defined.


Lemma scanned_ids_are_clean_witness :
  In "m2" (extractMessageUIDsFromNote (generateMarkdownContent trip))
  /\ noneOf isLineTerminator "m2" = true.
Proof.
  assert (In "m2" (extractMessageUIDsFromNote (generateMarkdownContent trip)))
    as Hin by (vm_compute; by right; left).
  split; [done|].
  exact (proj1 (scanned_ids_are_clean _ "m2" Hin)).
Defined.

Lemma scan_line_by_line_witness :
  isLineTerminator LF = true
  /\ extractMessageUIDsFromNote
       ("<!-- UID: a -->" +:+ String LF "x <!-- UID: b --> y")
     = extractMessageUIDsFromNote "<!-- UID: a -->"
       ++ extractMessageUIDsFromNote "x <!-- UID: b --> y".
Proof.
  assert (isLineTerminator LF = true) as Hc by reflexivity.
  split; [done|].
  exact (scan_line_by_line "<!-- UID: a -->" "x <!-- UID: b --> y" LF Hc).
Defined.

Lemma merge_appends_the_new_ids_witness :
  mergeable tripLater = true
  /\ extractMessageUIDsFromNote
       (mergedContent tripLater (generateMarkdownContent trip))
     = extractMessageUIDsFromNote
         (updateMetadata (generateMarkdownContent trip) (update_time tripLater))
       ++ map (fun kv => node_id (snd kv))
            (newNodes tripLater
               (extractMessageUIDsFromNote
                  (updateMetadata (generateMarkdownContent trip)
                     (update_time tripLater)))).
Proof.
  assert (mergeable tripLater = true) as Hm by (by vm_compute).
  split; [done|].
  exact (merge_appends_the_new_ids tripLater (generateMarkdownContent trip) Hm).
Defined.

Lemma merge_is_idempotent_witness :
  let note := generateMarkdownContent trip in
  plain (dateAtTime (update_time tripLater)) = true
  /\ hasLine "update_time: " note = true
  /\ hasLine "Last Updated: " note = true
  /\ mergeable tripLater = true
  /\ mergedContent tripLater (mergedContent tripLater note)
     = mergedContent tripLater note.
Proof.
  intros note.
  assert (plain (dateAtTime (update_time tripLater)) = true) as Hp
    by (by vm_compute).
  assert (hasLine "update_time: " note = true) as H1 by (by vm_compute).
  assert (hasLine "Last Updated: " note = true) as H2 by (by vm_compute).
  assert (mergeable tripLater = true) as Hm by (by vm_compute).
  repeat (split; [done|]).
  exact (merge_is_idempotent tripLater note Hp H1 H2 Hm).
Defined.


Lemma note_without_metadata_lines_is_kept_witness :
  let note := "## Conversation" +:+ nl +:+ "update_time is not at the start" in
  hasLine "update_time: " note = false
  /\ hasLine "Last Updated: " note = false
  /\ updateMetadata note 1700000500 = note.
Proof.
  intros note.
  assert (hasLine "update_time: " note = false) as H1 by (by vm_compute).
  assert (hasLine "Last Updated: " note = false) as H2 by (by vm_compute).
  repeat (split; [done|]).
  exact (note_without_metadata_lines_is_kept note 1700000500 H1 H2).
Defined.

Lemma updateMetadata_of_rendered_note_witness :
  oneLine manifest_id = true
  /\ oneLine (formatTitle (title trip)) = true
  /\ oneLine (id trip) = true
  /\ oneLine (dateAtTime (create_time trip)) = true
  /\ oneLine (dateAtTime (update_time trip)) = true
  /\ plain (dateAtTime 1700000500) = true
  /\ updateMetadata (generateMarkdownContent trip) 1700000500
     = generateMarkdownContent (withUpdateTime trip 1700000500).
Proof.
  assert (oneLine manifest_id = true) as Hm by (by vm_compute).
  assert (oneLine (formatTitle (title trip)) = true) as Ht by (by vm_compute).
  assert (oneLine (id trip) = true) as Hi by (by vm_compute).
  assert (oneLine (dateAtTime (create_time trip)) = true) as Hc by (by vm_compute).
  assert (oneLine (dateAtTime (update_time trip)) = true) as Hu by (by vm_compute).
  assert (plain (dateAtTime 1700000500) = true) as Hp by (by vm_compute).
  repeat (split; [done|]).
  exact (updateMetadata_of_rendered_note trip 1700000500 Hm Ht Hi Hc Hu Hp).
Defined.

Lemma unmarked_note_has_no_ids_witness :
  markerFree "<!-- no UID here -->" = true
  /\ extractMessageUIDsFromNote "<!-- no UID here -->" = [].
Proof.
  assert (markerFree "<!-- no UID here -->" = true) as Hf by reflexivity.
  split; [done|].
  exact (unmarked_note_has_no_ids _ Hf).
Defined.

Lemma quote_round_trip_witness :
  let ps := [PartString ("first line" +:+ nl +:+ "second line")] in
  let c := {| content_type := Some "text"; parts := Some ps |} in
  let m := {| msg_id := "q1"; author := Some {| role := Some "assistant" |};
              msg_create_time := Some 1700000001; content := Some c |} in
  content m = Some c
  /\ parts c = Some ps
  /\ messageText ps <> EmptyString
  /\ mapM (strip_prefix (quoteChar m +:+ " ")) (split_lf (messageQuote m))
     = Some (split_lf (messageText ps)).
Proof.
  intros ps c m.
  assert (content m = Some c) as Hc by reflexivity.
  assert (parts c = Some ps) as Hps by reflexivity.
  assert (messageText ps <> EmptyString) as Htxt by done.
  repeat (split; [done|]).
  exact (proj1 (quote_round_trip m c ps Hc Hps Htxt)).
Defined.

Lemma created_count_is_marker_count_witness :
  isValidMessage None = false
  /\ markerFree (generateHeader (formatTitle (title trip)) (id trip)
                   (dateAtTime (create_time trip)) (dateAtTime (update_time trip)))
     = true
  /\ forallb (fun m => markerFree (messageBody m) && roundTrips (msg_id m))
       (validMessages trip) = true
  /\ length (extractMessageUIDsFromNote (generateMarkdownContent trip))
     = validMessageCount trip.
Proof.
  assert (isValidMessage None = false) as Hn by reflexivity.
  assert (markerFree (generateHeader (formatTitle (title trip)) (id trip)
                        (dateAtTime (create_time trip))
                        (dateAtTime (update_time trip))) = true) as Hh
    by (by vm_compute).
  assert (forallb (fun m => markerFree (messageBody m) && roundTrips (msg_id m))
            (validMessages trip) = true) as Hms by (by vm_compute).
  repeat (split; [done|]).
  exact (created_count_is_marker_count trip Hn Hh Hms).
Defined.

Lemma refused_update_is_only_logged_witness :
  let note := generateMarkdownContent trip in
  vault afterTrip !! tripPath = Some (TFile note)
  /\ mergedContent tripLater note <> note
  /\ @vault_refuses hostReadOnly tripPath
       (@mergedContent utils hostReadOnly tripLater note) = Some "EROFS"
  /\ importReport
       (exec (@updateExistingNote utils hostReadOnly tripLater (Some tripPath) 3)
          afterTrip)
     = importReport afterTrip.
Proof.
  intros note.
  assert (vault afterTrip !! tripPath = Some (TFile note)) as Hfile
    by (by vm_compute).
  assert (@mergedContent utils hostReadOnly tripLater note <> note) as Hne
    by (by vm_compute).
  assert (@vault_refuses hostReadOnly tripPath
            (@mergedContent utils hostReadOnly tripLater note) = Some "EROFS")
    as Hr by reflexivity.
  repeat (split; [done|]).
  exact (proj1 (proj2 (@refused_update_is_only_logged utils hostReadOnly
                         tripLater tripPath 3 afterTrip note "EROFS"
                         Hfile Hne Hr))).
Defined.

End OnSampleMore.
